(** * mcp-llm-bridge: a shallow embedding of the conversation store, the
    context selector and the process adapter invoker, with the properties
    of the specification settled against it.

    Sources embedded:
    - src/mcp_llm_bridge/context_selector.py  (module [ContextSelector])
    - src/mcp_llm_bridge/adapters.py          (module [Adapters])
    - src/mcp_llm_bridge/conversation.py      (module [Conversation])

    Representation choices.
    - A Python [str] of the conversation store is a Rocq [string]; each
      [ascii] is one code point in 0..255 (the Latin-1 block of Unicode),
      so [str.isalnum] and [str.strip] are written out for that block.
    - In the adapter invoker, text is a list of code points ([pystr]) and
      process output is a list of byte values, decoded with a strict
      UTF-8 decoder as [bytes.decode("utf-8")] does.
    - JSON values are [jval]; [json.dumps], [json.loads], the per-process
      string hash of CPython, the clock and [random.randint] are fields of
      a [runtime] record the store is parameterised by.
    - Files of the conversation directory form a [gmap] from the file name
      relative to that directory to the file's text. *)

From Stdlib Require Import ZArith Lia.
From Stdlib Require Import Strings.String Strings.Ascii.
From stdpp Require Import base list gmap strings.
Import ListNotations.

Open Scope Z_scope.

(* ------------------------------------------------------------------ *)
(** ** Python strings over Latin-1 code points *)

Module PyStr.

Definition code (c : ascii) : Z := Z.of_nat (nat_of_ascii c).

(** [str.isspace] on code points 0..255: \t \n \v \f \r, \x1c-\x1f,
    space, \x85 and \xa0. *)
Definition is_space (c : ascii) : bool :=
  let n := code c in
  ((9 <=? n) && (n <=? 13)) || ((28 <=? n) && (n <=? 32))
  || (n =? 133) || (n =? 160).

(** [str.isalnum] on code points 0..255: ASCII letters and digits, the
    Latin-1 letters (ª µ º À-Ö Ø-ö ø-ÿ) and numerics (² ³ ¹ ¼ ½ ¾). *)
Definition isalnum (c : ascii) : bool :=
  let n := code c in
  ((48 <=? n) && (n <=? 57)) || ((65 <=? n) && (n <=? 90))
  || ((97 <=? n) && (n <=? 122))
  || (n =? 170) || (n =? 178) || (n =? 179) || (n =? 181) || (n =? 185)
  || (n =? 186) || ((188 <=? n) && (n <=? 190))
  || ((192 <=? n) && (n <=? 214)) || ((216 <=? n) && (n <=? 246))
  || ((248 <=? n) && (n <=? 255)).

Fixpoint lstrip (s : string) : string :=
  match s with
  | EmptyString => EmptyString
  | String c s' => if is_space c then lstrip s' else s
  end.

Definition rstrip (s : string) : string :=
  string_of_list_ascii (rev (list_ascii_of_string
    (lstrip (string_of_list_ascii (rev (list_ascii_of_string s)))))).

(** [s.strip()] *)
Definition strip (s : string) : string := rstrip (lstrip s).

Fixpoint is_prefix (p s : string) : bool :=
  match p, s with
  | EmptyString, _ => true
  | String a p', String b s' => Ascii.eqb a b && is_prefix p' s'
  | String _ _, EmptyString => false
  end.

(** [sub in s] *)
Fixpoint contains (sub s : string) : bool :=
  is_prefix sub s ||
  match s with
  | EmptyString => false
  | String _ s' => contains sub s'
  end.

(** [c in "-_"] joined with [c.isalnum()]: the filter of [_sanitize_id]. *)
Definition safe_char (c : ascii) : bool :=
  isalnum c || Ascii.eqb c "-"%char || Ascii.eqb c "_"%char.

Fixpoint filter_str (f : ascii -> bool) (s : string) : string :=
  match s with
  | EmptyString => EmptyString
  | String c s' => if f c then String c (filter_str f s') else filter_str f s'
  end.

(** [s[:n]] *)
Definition take (n : nat) (s : string) : string := substring 0 n s.

(** Decimal rendering of an [int], as [str(n)] and f-strings print it. *)
Fixpoint digits_of_nat_fuel (fuel n : nat) (acc : string) : string :=
  match fuel with
  | O => acc
  | S fuel' =>
      let d := ascii_of_nat (48 + Nat.modulo n 10) in
      if (n <? 10)%nat then String d acc
      else digits_of_nat_fuel fuel' (Nat.div n 10) (String d acc)
  end.

Definition str_of_Z (z : Z) : string :=
  let n := Z.to_nat (Z.abs z) in
  let ds := digits_of_nat_fuel (S n) n EmptyString in
  if z <? 0 then String "-" ds else ds.

End PyStr.

(* ------------------------------------------------------------------ *)
(** ** JSON values as [json.loads] returns them (floats left out) *)

Set Warnings "-register-all".

Inductive jval : Type :=
| JNull
| JBool (b : bool)
| JInt (z : Z)
| JStr (s : string)
| JArr (l : list jval)
| JObj (kv : list (string * jval)).

(** Python exceptions that the embedded code raises or catches. *)
Inductive py_exn : Type :=
| ValueError (msg : string)
| JSONDecodeError (pos : nat)
| KeyError (key : string)
| TypeError (msg : string)
| AttributeError (msg : string)
| RecursionError.

(** A result of a Python call: a value, or an exception escaping it. *)
Inductive res (A : Type) : Type :=
| Ok (a : A)
| Err (e : py_exn).
Arguments Ok {A} a.
Arguments Err {A} e.

(* ------------------------------------------------------------------ *)
(** ** context_selector.py *)

Module ContextSelector.
Section Select.

(** Messages are opaque to the selector except through
    [len(msg.get(key, ""))] for the keys ["content"] and ["speaker"]
    that [estimate_tokens] reads: [field_len msg key] is that length, or
    the exception raised by [msg.get] ([AttributeError] when [msg] is not
    a dict) or by [len] ([TypeError] when the value has no length). *)
Context {A : Type}.
Variable field_len : A -> string -> res Z.

(** [messages[-n:]] for [n >= 1]. *)
Definition last_n (n : nat) (l : list A) : list A :=
  drop (length l - n) l.

(** One message's term of [total_chars]: [len(content) + len(speaker) + 4].
    The source calls [msg.get("content", "")] and [msg.get("speaker", "")]
    before either [len]; on a dict neither [get] raises, and on anything
    else both raise the same [AttributeError], so taking each field's
    [get] and [len] in turn raises the same first exception. *)
Definition msg_chars (msg : A) : res Z :=
  match field_len msg "content" with
  | Err e => Err e
  | Ok content =>
      match field_len msg "speaker" with
      | Err e => Err e
      | Ok speaker => Ok (content + speaker + 4)
      end
  end.

(** The loop [for msg in messages: total_chars += ...]. *)
Fixpoint sum_chars (total_chars : Z) (messages : list A) : res Z :=
  match messages with
  | [] => Ok total_chars
  | msg :: rest =>
      match msg_chars msg with
      | Err e => Err e
      | Ok c => sum_chars (total_chars + c) rest
      end
  end.

Definition estimate_tokens (messages : list A) : res Z :=
  match messages with
  | [] => Ok 0
  | _ => match sum_chars 0 messages with
         | Err e => Err e
         | Ok total_chars => Ok (total_chars / 4)
         end
  end.

Definition _smart_select (messages : list A) : list A :=
  if (length messages <? 10)%nat then messages
  else match messages with
       | [] => []
       | m0 :: _ => [m0] ++ last_n 5 messages
       end.

(** [for i in range(n, 0, -1): candidate = mk i; if fits: return]. *)
Fixpoint first_fit (mk : nat -> list A) (max_tokens : Z) (i : nat)
  : res (option (list A)) :=
  match i with
  | O => Ok None
  | S i' =>
      match estimate_tokens (mk i) with
      | Err e => Err e
      | Ok t => if t <=? max_tokens then Ok (Some (mk i))
                else first_fit mk max_tokens i'
      end
  end.

(** The last loop and the final [return []]. *)
Definition suffix_or_empty (messages : list A) (max_tokens : Z) : res (list A) :=
  match first_fit (fun i => last_n i messages) max_tokens (length messages) with
  | Err e => Err e
  | Ok (Some c) => Ok c
  | Ok None => Ok []
  end.

Definition _apply_token_limit (messages : list A) (max_tokens : Z)
    (mode : string) : res (list A) :=
  match messages with
  | [] => Ok messages
  | m0 :: remaining =>
      match estimate_tokens messages with
      | Err e => Err e
      | Ok t =>
          if t <=? max_tokens then Ok messages
          else if String.eqb mode "smart" && (1 <? length messages)%nat then
            match first_fit (fun i => [m0] ++ last_n i remaining) max_tokens
                    (length remaining) with
            | Err e => Err e
            | Ok (Some c) => Ok c
            | Ok None => suffix_or_empty messages max_tokens
            end
          else suffix_or_empty messages max_tokens
      end
  end.

Definition select (messages : list A) (mode : string)
    (max_tokens : option Z) : res (list A) :=
  let selected :=
    if String.eqb mode "none" then Some []
    else if String.eqb mode "minimal" then
      Some (match messages with [] => [] | _ => last_n 1 messages end)
    else if String.eqb mode "recent" then
      Some (if (10 <? length messages)%nat then last_n 10 messages
            else messages)
    else if String.eqb mode "smart" then Some (_smart_select messages)
    else if String.eqb mode "full" then Some messages
    else None in
  match selected with
  | None => Err (ValueError ("Unknown context mode: " ++ mode))
  | Some sel =>
      if String.eqb mode "none" then Ok []
      else match max_tokens with
           | Some mt => _apply_token_limit sel mt mode
           | None => Ok sel
           end
  end.

(** A message whose ["content"] and ["speaker"] both have a length. *)
Definition sized (msg : A) : Prop := exists n, msg_chars msg = Ok n.

End Select.
End ContextSelector.

(* ------------------------------------------------------------------ *)
(** ** adapters.py *)

Module Adapters.

(** A Python [str] as its list of code points. *)
Definition pystr := list Z.

Definition lit (s : string) : pystr := map PyStr.code (list_ascii_of_string s).

Fixpoint lprefix (p s : pystr) : bool :=
  match p, s with
  | [], _ => true
  | a :: p', b :: s' => (a =? b) && lprefix p' s'
  | _ :: _, [] => false
  end.

(** [sub in s] *)
Fixpoint lcontains (sub s : pystr) : bool :=
  lprefix sub s || match s with [] => false | _ :: s' => lcontains sub s' end.

(** [s.replace(old, new)] for a non-empty [old]: the occurrences are found
    left to right without overlap and the inserted text is not rescanned. *)
Fixpoint replace_fuel (fuel : nat) (old new s : pystr) : pystr :=
  match fuel with
  | O => s
  | S fuel' =>
      match s with
      | [] => []
      | c :: s' =>
          if lprefix old s then new ++ replace_fuel fuel' old new (drop (length old) s)
          else c :: replace_fuel fuel' old new s'
      end
  end.

Definition py_replace (old new s : pystr) : pystr :=
  replace_fuel (length s) old new s.

(** [sep.join(items)] *)
Fixpoint join (sep : pystr) (items : list pystr) : pystr :=
  match items with
  | [] => []
  | [x] => x
  | x :: rest => x ++ sep ++ join sep rest
  end.

(** [str.isspace] over all of Unicode. *)
Definition is_space (c : Z) : bool :=
  ((9 <=? c) && (c <=? 13)) || ((28 <=? c) && (c <=? 32)) || (c =? 133)
  || (c =? 160) || (c =? 5760) || ((8192 <=? c) && (c <=? 8202))
  || (c =? 8232) || (c =? 8233) || (c =? 8239) || (c =? 8287)
  || (c =? 12288).

Fixpoint lstrip (s : pystr) : pystr :=
  match s with
  | [] => []
  | c :: s' => if is_space c then lstrip s' else s
  end.

(** [s.strip()] *)
Definition strip (s : pystr) : pystr := rev (lstrip (rev (lstrip s))).

(** A [UnicodeError]: its [start], [end] and [reason]. *)
Record unicode_error := {
  u_start : nat;
  u_end : nat;
  u_reason : string;
}.

Definition cont (b : Z) : bool := (128 <=? b) && (b <=? 191).

(** [bytes.decode("utf-8")] (strict) as CPython's decoder checks each
    sequence: the code points, or the error raised at the first
    ill-formed one, [pos] being the number of bytes before [bs].  A
    sequence cut short by the end of the input is "unexpected end of
    data" up to that end; a bad second, third or fourth byte ends the
    error before it. *)
Fixpoint utf8_decode (pos : nat) (bs : list Z) : pystr + unicode_error :=
  let invalid (n : nat) (reason : string) :=
    inr {| u_start := pos; u_end := (pos + n)%nat; u_reason := reason |} in
  let truncated :=
    inr {| u_start := pos; u_end := (pos + length bs)%nat;
           u_reason := "unexpected end of data" |} in
  match bs with
  | [] => inl []
  | b0 :: r =>
      let push cp rest k :=
        match utf8_decode (pos + k)%nat rest with
        | inl cps => inl (cp :: cps)
        | inr e => inr e
        end in
      if b0 <? 128 then push b0 r 1%nat
      else if b0 <? 194 then invalid 1%nat "invalid start byte"
      else if b0 <? 224 then
        match r with
        | [] => truncated
        | b1 :: r1 =>
            if cont b1 then push ((b0 - 192) * 64 + (b1 - 128)) r1 2%nat
            else invalid 1%nat "invalid continuation byte"
        end
      else if b0 <? 240 then
        let bad1 b1 := negb (cont b1) || (if b1 <? 160 then b0 =? 224 else b0 =? 237) in
        match r with
        | [] => truncated
        | [b1] => if bad1 b1 then invalid 1%nat "invalid continuation byte" else truncated
        | b1 :: b2 :: r2 =>
            if bad1 b1 then invalid 1%nat "invalid continuation byte"
            else if negb (cont b2) then invalid 2%nat "invalid continuation byte"
            else push ((b0 - 224) * 4096 + (b1 - 128) * 64 + (b2 - 128)) r2 3%nat
        end
      else if b0 <? 245 then
        let bad1 b1 := negb (cont b1) || (if b1 <? 144 then b0 =? 240 else b0 =? 244) in
        match r with
        | [] => truncated
        | [b1] => if bad1 b1 then invalid 1%nat "invalid continuation byte" else truncated
        | [b1; b2] =>
            if bad1 b1 then invalid 1%nat "invalid continuation byte"
            else if negb (cont b2) then invalid 2%nat "invalid continuation byte"
            else truncated
        | b1 :: b2 :: b3 :: r3 =>
            if bad1 b1 then invalid 1%nat "invalid continuation byte"
            else if negb (cont b2) then invalid 2%nat "invalid continuation byte"
            else if negb (cont b3) then invalid 3%nat "invalid continuation byte"
            else push ((b0 - 240) * 262144 + (b1 - 128) * 4096 + (b2 - 128) * 64
                       + (b3 - 128)) r3 4%nat
        end
      else invalid 1%nat "invalid start byte"
  end.

(** The UTF-8 bytes of one code point that is not a surrogate. *)
Definition utf8_bytes (c : Z) : list Z :=
  if c <? 128 then [c]
  else if c <? 2048 then [192 + c / 64; 128 + c mod 64]
  else if c <? 65536 then [224 + c / 4096; 128 + (c / 64) mod 64; 128 + c mod 64]
  else [240 + c / 262144; 128 + (c / 4096) mod 64; 128 + (c / 64) mod 64;
        128 + c mod 64].

Definition is_surrogate (c : Z) : bool := (55296 <=? c) && (c <=? 57343).

(** The number of surrogates at the front of [s]. *)
Fixpoint surrogate_run (s : pystr) : nat :=
  match s with
  | [] => O
  | c :: s' => if is_surrogate c then S (surrogate_run s') else O
  end.

(** [str.encode("utf-8")] (strict): a surrogate cannot be encoded; the
    error covers the run of surrogates that starts at the first one, with
    the reason "surrogates not allowed". *)
Fixpoint utf8_encode (pos : nat) (s : pystr) : list Z + unicode_error :=
  match s with
  | [] => inl []
  | c :: s' =>
      if is_surrogate c then
        inr {| u_start := pos; u_end := (pos + surrogate_run s)%nat;
               u_reason := "surrogates not allowed" |}
      else match utf8_encode (S pos) s' with
           | inl bs => inl (utf8_bytes c ++ bs)
           | inr e => inr e
           end
  end.

(** [str(int)] as code points. *)
Definition str_int (z : Z) : pystr := lit (PyStr.str_of_Z z).

(** [%0<width>x]: [n] in lower-case hexadecimal, [width] digits. *)
Fixpoint hex_fixed (width : nat) (n : Z) : pystr :=
  match width with
  | O => []
  | S w => hex_fixed w (n / 16) ++ [let d := n mod 16 in if d <? 10 then 48 + d else 87 + d]
  end.

(** [str(e)] of the [UnicodeDecodeError] [e] raised on the bytes [obj]. *)
Definition decode_error_text (obj : list Z) (e : unicode_error) : pystr :=
  if (u_start e <? length obj)%nat && (u_end e =? S (u_start e))%nat then
    lit "'utf-8' codec can't decode byte 0x" ++ hex_fixed 2 (nth (u_start e) obj 0)
    ++ lit " in position " ++ str_int (Z.of_nat (u_start e)) ++ lit ": "
    ++ lit (u_reason e)
  else
    lit "'utf-8' codec can't decode bytes in position " ++ str_int (Z.of_nat (u_start e))
    ++ lit "-" ++ str_int (Z.of_nat (u_end e) - 1) ++ lit ": " ++ lit (u_reason e).

(** [str(e)] of the [UnicodeEncodeError] [e] raised on the text [obj]. *)
Definition encode_error_text (obj : pystr) (e : unicode_error) : pystr :=
  if (u_start e <? length obj)%nat && (u_end e =? S (u_start e))%nat then
    let badchar := nth (u_start e) obj 0 in
    lit "'utf-8' codec can't encode character '"
    ++ (if badchar <=? 255 then lit "\x" ++ hex_fixed 2 badchar
        else if badchar <=? 65535 then lit "\u" ++ hex_fixed 4 badchar
        else lit "\U" ++ hex_fixed 8 badchar)
    ++ lit "' in position " ++ str_int (Z.of_nat (u_start e)) ++ lit ": "
    ++ lit (u_reason e)
  else
    lit "'utf-8' codec can't encode characters in position " ++ str_int (Z.of_nat (u_start e))
    ++ lit "-" ++ str_int (Z.of_nat (u_end e) - 1) ++ lit ": " ++ lit (u_reason e).

(** The adapter's configuration dict, with the keys [_call_bash_adapter]
    reads; an absent key is [None].  [env] and [working_dir] are only
    handed to the spawned process, whose behaviour is the oracle below. *)
Record adapter_config := {
  a_name : pystr;
  a_command : pystr;
  a_args : option (list pystr);
  a_input_method : option pystr;
  a_timeout_seconds : option Z;
}.

(** A history entry: the dict keys [speaker] and [content]. *)
Record hist_msg := {
  h_speaker : option pystr;
  h_content : option pystr;
}.

Definition _format_history (history : list hist_msg) : pystr :=
  match history with
  | [] => []
  | _ =>
      join (lit " | ")
        (map (fun msg =>
                let speaker := default (lit "unknown") (h_speaker msg) in
                let content := py_replace [10] [32] (default [] (h_content msg)) in
                speaker ++ lit ": " ++ content) history)
  end.

(** Truthiness of an optional string, as [if stdin_input:] tests it. *)
Definition truthy (s : option pystr) : bool :=
  match s with Some (_ :: _) => true | _ => false end.

(** The message-placement loop over [args] in [arg] mode: the processed
    args and the [message_added] flag. *)
Fixpoint place_message (message : pystr) (args : list pystr)
  : list pystr * bool :=
  match args with
  | [] => ([], false)
  | arg :: rest =>
      let '(processed, added) := place_message message rest in
      if lcontains (lit "{message}") arg then
        (py_replace (lit "{message}") message arg :: processed, true)
      else (arg :: processed, added)
  end.

(** "Build command" and "Optionally prepend history": the argv and the
    text sent on standard input ([None] for no input). *)
Definition build_command (cfg : adapter_config) (message : pystr)
    (conversation_history : option (list hist_msg)) (pass_history : bool)
  : list pystr * option pystr :=
  let args := default [] (a_args cfg) in
  let input_method := default (lit "stdin") (a_input_method cfg) in
  let '(full_command, stdin_input) :=
    if bool_decide (input_method = lit "arg") then
      let '(processed_args, message_added) := place_message message args in
      let processed_args :=
        if negb message_added && bool_decide (message <> []) then
          processed_args ++ [message]
        else processed_args in
      ([a_command cfg] ++ processed_args, None)
    else ([a_command cfg] ++ args, Some message) in
  let stdin_input :=
    match conversation_history with
    | Some ((_ :: _) as hist) =>
        if pass_history then
          let history_text := _format_history hist in
          if truthy stdin_input then
            Some (history_text ++ lit " | " ++ default [] stdin_input)
          else Some history_text
        else stdin_input
    | _ => stdin_input
    end in
  (full_command, stdin_input).

(** What the operating system does with one spawn, with the clock as
    the code reads it: [int((time.time() - start_time) * 1000)], time
    being counted in whole milliseconds.  The executable is missing; or
    spawning fails with [str(e) = msg], the handler reading the clock at
    [elapsed_ms]; or the process is spawned at [spawn_ms], and
    [process.communicate] takes [comm_ms] to collect its exit code [rc],
    [stdout] and [stderr] (byte values).  An endless process has a
    [comm_ms] past any timeout.  What the process does may depend on its
    input: the oracle stands for all of it. *)
Inductive behaviour :=
| NoSuchCommand
| SpawnFails (elapsed_ms : Z) (msg : pystr)
| Runs (spawn_ms comm_ms : Z) (rc : Z) (stdout stderr : list Z).

(** [Killed]: terminated by a signal from the caller. *)
Inductive pstatus := Running | Exited (rc : Z) | Killed.

(** The process table: each spawned pid with its status. *)
Record os_state := {
  procs : list (Z * pstatus);
  next_pid : Z;
}.

Record call_result := {
  response : pystr;
  r_adapter : pystr;
  exit_code : Z;
  execution_time_ms : Z;
  error : option pystr;
}.

Definition set_status (pid : Z) (st : pstatus) (os : os_state) : os_state :=
  {| procs := map (fun '(p, s) => if p =? pid then (p, st) else (p, s)) (procs os);
     next_pid := next_pid os |}.

(** [stdin_input.encode("utf-8") if stdin_input else None] *)
Definition stdin_bytes (stdin_input : option pystr) : option (list Z) + unicode_error :=
  if truthy stdin_input then
    match utf8_encode 0 (default [] stdin_input) with
    | inl bs => inl (Some bs)
    | inr e => inr e
    end
  else inl None.

(** The [try] block of [_call_bash_adapter] and its handlers.  After the
    spawn, [stdin_input.encode("utf-8") if stdin_input else None] is
    evaluated before [communicate] starts: a [UnicodeEncodeError] goes to
    [except Exception] and the process is never waited for.
    [asyncio.wait_for(process.communicate(...), timeout)] raises
    [TimeoutError] when the process outlives [timeout] seconds; the
    handler returns without touching the process.  A failed decode of
    stdout or stderr goes to [except Exception] too. *)
Definition _call_bash_adapter (cfg : adapter_config) (message : pystr)
    (conversation_history : option (list hist_msg)) (pass_history : bool)
    (b : behaviour) (os : os_state) : call_result * os_state :=
  let timeout := default 300 (a_timeout_seconds cfg) in
  let '(_full_command, stdin_input) :=
    build_command cfg message conversation_history pass_history in
  match b with
  | NoSuchCommand =>
      ({| response := []; r_adapter := a_name cfg; exit_code := -1;
          execution_time_ms := 0;
          error := Some (lit "Command not found: " ++ a_command cfg) |}, os)
  | SpawnFails elapsed msg =>
      ({| response := []; r_adapter := a_name cfg; exit_code := -1;
          execution_time_ms := elapsed; error := Some msg |}, os)
  | Runs spawn_ms comm_ms rc out err =>
      let pid := next_pid os in
      let os1 := {| procs := procs os ++ [(pid, Running)];
                    next_pid := pid + 1 |} in
      match stdin_bytes stdin_input with
      | inr e =>
          ({| response := []; r_adapter := a_name cfg; exit_code := -1;
              execution_time_ms := spawn_ms;
              error := Some (encode_error_text (default [] stdin_input) e) |}, os1)
      | inl _input =>
      if timeout * 1000 <? comm_ms then
        ({| response := []; r_adapter := a_name cfg; exit_code := -1;
            execution_time_ms := timeout * 1000;
            error := Some (lit "Command timed out after " ++ str_int timeout
                           ++ lit " seconds") |}, os1)
      else
        let elapsed := spawn_ms + comm_ms in
        let os2 := set_status pid (Exited rc) os1 in
        let failure obj e :=
          ({| response := []; r_adapter := a_name cfg; exit_code := -1;
              execution_time_ms := elapsed;
              error := Some (decode_error_text obj e) |}, os2) in
        match utf8_decode 0 out with
        | inr e => failure out e
        | inl out_text =>
            let response := strip out_text in
            let err_res :=
              match err with
              | [] => inl None
              | _ => match utf8_decode 0 err with
                     | inl t => inl (Some (strip t))
                     | inr e => inr e
                     end
              end in
            match err_res with
            | inr e => failure err e
            | inl error =>
                ({| response := response; r_adapter := a_name cfg;
                    exit_code := rc; execution_time_ms := elapsed;
                    error := if rc =? 0 then None else error |}, os2)
            end
        end
      end
  end.

(** [config.get("timeout_seconds", 300)] *)
Definition timeout_of (cfg : adapter_config) : Z := default 300 (a_timeout_seconds cfg).

End Adapters.

(* ------------------------------------------------------------------ *)
(** ** conversation.py *)

Module Conversation.

(** What the store takes from the Python runtime. *)
Record runtime := {
  dumps : jval -> string;          (** [json.dump(v, f, ensure_ascii=False)] *)
  dumps_indent : jval -> string;   (** the same with [indent=2] *)
  loads : string -> res jval;      (** [json.loads] *)
  str_hash : string -> Z;          (** [hash(str)], seeded per process *)
  isoformat : nat -> string;       (** [datetime.now().isoformat()] at clock read n *)
  strftime_id : nat -> string;     (** [datetime.now().strftime("%Y%m%d_%H%M%S_%f")] *)
  randint : nat -> Z;              (** [random.randint(1000, 9999)], draw n *)
}.

(** The conversation directory ([gmap] from file name to text), the
    number of clock reads and random draws so far, and what [print]
    wrote. *)
Record state := {
  files : gmap string string;
  ticks : nat;
  draws : nat;
  printed : list string;
}.

(** The store's computations: state passing where an exception keeps the
    effects performed before it, as in Python. *)
Definition M (A : Type) := state -> res A * state.

Definition ret {A} (a : A) : M A := fun s => (Ok a, s).
Definition bind {A B} (c : M A) (k : A -> M B) : M B :=
  fun s => match c s with
           | (Ok a, s') => k a s'
           | (Err e, s') => (Err e, s')
           end.
Definition raise {A} (e : py_exn) : M A := fun s => (Err e, s).
Definition lift {A} (r : res A) : M A := fun s => (r, s).

Notation "'let*' x ':=' c 'in' k" := (bind c (fun x => k))
  (at level 200, x name, c at level 100, k at level 200).

Definition set_files (f : gmap string string) (s : state) : state :=
  {| files := f; ticks := ticks s; draws := draws s; printed := printed s |}.

Definition exists_file (p : string) : M bool :=
  fun s => (Ok (bool_decide (is_Some (files s !! p))), s).
Definition read_file (p : string) : M string :=
  fun s => (Ok (default EmptyString (files s !! p)), s).
(** [open(p, "w")] and write *)
Definition write_file (p txt : string) : M unit :=
  fun s => (Ok tt, set_files (<[p := txt]> (files s)) s).
(** [open(p, "a")] and write: a missing file is created *)
Definition append_file (p txt : string) : M unit :=
  fun s => (Ok tt, set_files (<[p := String.append (default EmptyString (files s !! p)) txt]> (files s)) s).
(** [Path.touch()] *)
Definition touch (p : string) : M unit :=
  fun s => (Ok tt, set_files (<[p := default EmptyString (files s !! p)]> (files s)) s).
(** [Path.rename(target)] (POSIX: replaces the target) *)
Definition rename (src dst : string) : M unit :=
  fun s => (Ok tt, set_files (<[dst := default EmptyString (files s !! src)]>
                               (delete src (files s))) s).
Definition print (line : string) : M unit :=
  fun s => (Ok tt, {| files := files s; ticks := ticks s; draws := draws s;
                      printed := printed s ++ [line] |}).

Section WithRuntime.
Variable rt : runtime.

Definition now_iso : M string :=
  fun s => (Ok (isoformat rt (ticks s)),
            {| files := files s; ticks := S (ticks s); draws := draws s;
               printed := printed s |}).
Definition now_strftime : M string :=
  fun s => (Ok (strftime_id rt (ticks s)),
            {| files := files s; ticks := S (ticks s); draws := draws s;
               printed := printed s |}).
Definition randint_draw : M Z :=
  fun s => (Ok (randint rt (draws s)),
            {| files := files s; ticks := ticks s; draws := S (draws s);
               printed := printed s |}).

(** *** Python objects: dict access and [hash] *)

Fixpoint assoc (k : string) (kv : list (string * jval)) : option jval :=
  match kv with
  | [] => None
  | (k', v) :: rest => if String.eqb k k' then Some v else assoc k rest
  end.

(** [d[k]] *)
Definition getitem (v : jval) (k : string) : res jval :=
  match v with
  | JObj kv => match assoc k kv with Some x => Ok x | None => Err (KeyError k) end
  | JArr _ => Err (TypeError "list indices must be integers or slices, not str")
  | JStr _ => Err (TypeError "string indices must be integers")
  | JInt _ => Err (TypeError "'int' object is not subscriptable")
  | JBool _ => Err (TypeError "'bool' object is not subscriptable")
  | JNull => Err (TypeError "'NoneType' object is not subscriptable")
  end.

(** [d.get(k, default)] *)
Definition dict_get (v : jval) (k : string) (dflt : jval) : res jval :=
  match v with
  | JObj kv => Ok (default dflt (assoc k kv))
  | _ => Err (AttributeError "object has no attribute 'get'")
  end.

Fixpoint assoc_set (k : string) (x : jval) (kv : list (string * jval))
  : list (string * jval) :=
  match kv with
  | [] => [(k, x)]
  | (k', v) :: rest =>
      if String.eqb k k' then (k', x) :: rest else (k', v) :: assoc_set k x rest
  end.

(** [d[k] = x]: a present key keeps its position, a new one goes last. *)
Definition setitem (v : jval) (k : string) (x : jval) : res jval :=
  match v with
  | JObj kv => Ok (JObj (assoc_set k x kv))
  | _ => Err (TypeError "object does not support item assignment")
  end.

(** [x[:100]] *)
Definition slice_100 (v : jval) : res jval :=
  match v with
  | JStr s => Ok (JStr (PyStr.take 100 s))
  | JArr l => Ok (JArr (firstn 100 l))
  | JObj _ => Err (TypeError "unhashable type: 'slice'")
  | _ => Err (TypeError "object is not subscriptable")
  end.

(** [hash(v)]: a string uses the process's seeded hash; an int is reduced
    modulo 2^61 - 1; [None] hashes to CPython 3.12's constant; lists and
    dicts are unhashable.  -1 is never a hash value. *)
Definition int_hash (z : Z) : Z :=
  let r := Z.abs z mod (2 ^ 61 - 1) in
  let h := if z <? 0 then - r else r in
  if h =? -1 then -2 else h.

Definition py_hash (v : jval) : res Z :=
  match v with
  | JStr s => let h := str_hash rt s in Ok (if h =? -1 then -2 else h)
  | JInt z => Ok (int_hash z)
  | JBool b => Ok (if b then 1 else 0)
  | JNull => Ok 4238894112
  | JArr _ => Err (TypeError "unhashable type: 'list'")
  | JObj _ => Err (TypeError "unhashable type: 'dict'")
  end.

(** [==] on hashable values ([True == 1]). *)
Definition num_of (v : jval) : option Z :=
  match v with
  | JInt z => Some z
  | JBool b => Some (if b then 1 else 0)
  | _ => None
  end.

Definition hashable_eq (a b : jval) : bool :=
  match a, b with
  | JStr x, JStr y => String.eqb x y
  | JNull, JNull => true
  | _, _ => match num_of a, num_of b with
            | Some x, Some y => x =? y
            | _, _ => false
            end
  end.

(** *** CPython's [set]: open addressing with linear probes and
    perturbation ([Objects/setobject.c]); [list(s)] lists the slots in
    table order.  A slot holds the hash and the key. *)

Definition slot := option (Z * jval).

Record pyset := { table : list slot; mask : Z; fill : nat }.

Definition LINEAR_PROBES : nat := 9.
Definition PERTURB_SHIFT : Z := 5.

(** [do { ... entry++ } while (probes--)]: entries [i .. i + probes]. *)
Fixpoint scan (tbl : list slot) (i : Z) (probes : nat) (h : Z) (key : jval)
  : option (Z * bool) :=
  let next := match probes with
              | O => None
              | S p => scan tbl (i + 1) p h key
              end in
  match tbl !! Z.to_nat i with
  | Some None => Some (i, false)
  | Some (Some (h', k')) =>
      if (h' =? h) && hashable_eq k' key then Some (i, true) else next
  | None => next
  end.

(** The probe loop: the slot where [key] is or goes, and whether it was
    already present. *)
Fixpoint probe (fuel : nat) (tbl : list slot) (msk h : Z) (key : jval)
    (i perturb : Z) : option (Z * bool) :=
  match fuel with
  | O => None
  | S fuel' =>
      let probes := if i + Z.of_nat LINEAR_PROBES <=? msk then LINEAR_PROBES else O in
      match scan tbl i probes h key with
      | Some r => Some r
      | None =>
          let perturb' := Z.shiftr perturb PERTURB_SHIFT in
          probe fuel' tbl msk h key (Z.land (i * 5 + 1 + perturb') msk) perturb'
      end
  end.

Definition find_slot (tbl : list slot) (msk h : Z) (key : jval) : option (Z * bool) :=
  let uh := h mod 2 ^ 64 in
  probe (length tbl + 70) tbl msk h key (Z.land uh msk) uh.

Definition empty_table (size : nat) : list slot := replicate size None.

(** [set_insert_clean] of every entry of the old table, in slot order. *)
Definition reinsert (tbl : list slot) (msk : Z) (entries : list (Z * jval))
  : list slot :=
  fold_left (fun t '(h, k) =>
               match find_slot t msk h k with
               | Some (i, _) => <[Z.to_nat i := Some (h, k)]> t
               | None => t
               end) entries tbl.

Definition entries (so : pyset) : list (Z * jval) :=
  omap (fun x => x) (table so).

Fixpoint grow (fuel : nat) (size minused : Z) : Z :=
  match fuel with
  | O => size
  | S f => if size <=? minused then grow f (size * 2) minused else size
  end.

(** [set_table_resize(so, used > 50000 ? used * 2 : used * 4)] *)
Definition resize (so : pyset) : pyset :=
  let used := Z.of_nat (fill so) in
  let minused := if 50000 <? used then used * 2 else used * 4 in
  let newsize := grow 64 8 minused in
  {| table := reinsert (empty_table (Z.to_nat newsize)) (newsize - 1) (entries so);
     mask := newsize - 1; fill := fill so |}.

(** [set_add_key] *)
Definition set_add (so : pyset) (key : jval) : res pyset :=
  match py_hash key with
  | Err e => Err e
  | Ok h =>
      match find_slot (table so) (mask so) h key with
      | Some (i, false) =>
          let so' := {| table := <[Z.to_nat i := Some (h, key)]> (table so);
                        mask := mask so; fill := S (fill so) |} in
          if Z.of_nat (fill so') * 5 <? mask so * 3 then Ok so' else Ok (resize so')
      | _ => Ok so
      end
  end.

Definition new_set : pyset := {| table := empty_table 8; mask := 7; fill := 0 |}.

(** [list(s)] *)
Definition set_list (so : pyset) : list jval := map snd (entries so).

(** *** Reading a text file line by line *)

(** Universal newlines of text-mode [open]: \r\n and \r read as \n. *)
Fixpoint universal_nl (l : list ascii) : list ascii :=
  match l with
  | [] => []
  | c :: r =>
      if Ascii.eqb c "013"%char then
        match r with
        | c' :: r' => if Ascii.eqb c' "010"%char then "010"%char :: universal_nl r'
                      else "010"%char :: universal_nl r
        | [] => ["010"%char]
        end
      else c :: universal_nl r
  end.

(** The lines [for line in f] yields, without their terminator; a last
    line without a newline is yielded when it is not empty. *)
Fixpoint split_nl (l : list ascii) (cur : list ascii) : list (list ascii) :=
  match l with
  | [] => match cur with [] => [] | _ => [rev cur] end
  | c :: r =>
      if Ascii.eqb c "010"%char then rev cur :: split_nl r []
      else split_nl r (c :: cur)
  end.

Definition lines_of (txt : string) : list string :=
  map string_of_list_ascii (split_nl (universal_nl (list_ascii_of_string txt)) []).

(** [seq[start:end]] *)
Definition py_slice {A} (l : list A) (start stop : option Z) : list A :=
  let n := Z.of_nat (length l) in
  let norm x := if x <? 0 then Z.max 0 (x + n) else Z.min x n in
  let s := match start with None => 0 | Some x => norm x end in
  let e := match stop with None => n | Some x => norm x end in
  if s <? e then firstn (Z.to_nat (e - s)) (drop (Z.to_nat s) l) else [].

(** [str(e)] for the exceptions printed in warnings (abbreviated). *)
Definition exn_str (e : py_exn) : string :=
  match e with
  | ValueError m | TypeError m | AttributeError m => m
  | JSONDecodeError p => ("JSON decode error at char " ++ PyStr.str_of_Z (Z.of_nat p))%string
  | KeyError k => k
  | RecursionError => "maximum recursion depth exceeded"
  end.

(** *** [ConversationManager] *)

Local Open Scope string_scope.

Definition _sanitize_id (conversation_id : string) : string :=
  if PyStr.contains "/" conversation_id || PyStr.contains "\" conversation_id
     || PyStr.contains ".." conversation_id then ""
  else
    let safe_id := PyStr.filter_str PyStr.safe_char conversation_id in
    if String.eqb safe_id "" then "" else safe_id.

Definition _get_conversation_path (conversation_id : string) : string :=
  _sanitize_id conversation_id ++ ".jsonl".

Definition _get_metadata_path (conversation_id : string) : string :=
  ".metadata/" ++ _sanitize_id conversation_id ++ ".json".

Definition legacy_path (conversation_id : string) : string :=
  _sanitize_id conversation_id ++ ".json".

Definition backup_path (conversation_id : string) : string :=
  _sanitize_id conversation_id ++ ".json.bak".

Definition conversation_exists (conversation_id : string) : M bool :=
  let* j := exists_file (_get_conversation_path conversation_id) in
  if j then ret true else exists_file (legacy_path conversation_id).

(** [for message in messages] over what [json.load] returned. *)
Definition iter_json (v : jval) : res (list jval) :=
  match v with
  | JArr l => Ok l
  | JObj kv => Ok (map (fun '(k, _) => JStr k) kv)
  | JStr s => Ok (map (fun c => JStr (String c EmptyString)) (list_ascii_of_string s))
  | JInt _ => Err (TypeError "'int' object is not iterable")
  | JBool _ => Err (TypeError "'bool' object is not iterable")
  | JNull => Err (TypeError "'NoneType' object is not iterable")
  end.

Definition jsonl_text (msgs : list jval) : string :=
  String.concat "" (map (fun m => dumps rt m ++ String "010"%char EmptyString) msgs).

Definition _migrate_if_needed (conversation_id : string) : M unit :=
  let legacy := legacy_path conversation_id in
  let jsonl := _get_conversation_path conversation_id in
  let* j := exists_file jsonl in
  if j then ret tt else
  let* l := exists_file legacy in
  if negb l then ret tt else
  let* txt := read_file legacy in
  match loads rt txt with
  | Err (JSONDecodeError p) =>
      print ("Warning: Failed to read legacy file " ++ legacy ++ ": "
             ++ exn_str (JSONDecodeError p))
  | Err e => raise e
  | Ok messages =>
      (* [open(jsonl_path, "w")] creates the file before the loop *)
      let* _ := write_file jsonl "" in
      match iter_json messages with
      | Err e => raise e
      | Ok ms =>
          let* _ := write_file jsonl (jsonl_text ms) in
          rename legacy (backup_path conversation_id)
      end
  end.

(** The loop of [read_messages] over the stripped lines, numbered from
    [line_num]. *)
Fixpoint parse_lines (conversation_id : string) (line_num : nat)
    (lines : list string) : M (list jval) :=
  match lines with
  | [] => ret []
  | raw :: rest =>
      let line := PyStr.strip raw in
      if String.eqb line "" then parse_lines conversation_id (S line_num) rest
      else match loads rt line with
           | Ok message =>
               let* ms := parse_lines conversation_id (S line_num) rest in
               ret (message :: ms)
           | Err (JSONDecodeError p) =>
               let* _ := print ("Warning: Skipping corrupted line "
                                ++ PyStr.str_of_Z (Z.of_nat line_num) ++ " in "
                                ++ conversation_id ++ ": "
                                ++ exn_str (JSONDecodeError p)) in
               parse_lines conversation_id (S line_num) rest
           | Err e => raise e
           end
  end.

Definition read_messages (conversation_id : string) (start stop : option Z)
  : M (list jval) :=
  let* _ := _migrate_if_needed conversation_id in
  let conv_path := _get_conversation_path conversation_id in
  let* ex := exists_file conv_path in
  if negb ex then ret [] else
  let* txt := read_file conv_path in
  let* messages := parse_lines conversation_id 1 (lines_of txt) in
  match start, stop with
  | None, None => ret messages
  | _, _ => ret (py_slice messages start stop)
  end.

Definition _count_messages (conversation_id : string) : M Z :=
  let* ms := read_messages conversation_id None None in
  ret (Z.of_nat (length ms)).

Definition _save_metadata (conversation_id : string) (metadata : jval) : M unit :=
  write_file (_get_metadata_path conversation_id) (dumps_indent rt metadata).

(** [list(set(msg["speaker"] for msg in messages))]: each speaker is
    looked up and added in turn. *)
Fixpoint add_speakers (so : pyset) (messages : list jval) : res pyset :=
  match messages with
  | [] => Ok so
  | msg :: rest =>
      match getitem msg "speaker" with
      | Err e => Err e
      | Ok sp => match set_add so sp with
                 | Err e => Err e
                 | Ok so' => add_speakers so' rest
                 end
      end
  end.

Definition participants_of (messages : list jval) : res (list jval) :=
  match add_speakers new_set messages with
  | Err e => Err e
  | Ok so => Ok (set_list so)
  end.

Definition _generate_metadata (conversation_id : string) : M jval :=
  let* messages := read_messages conversation_id None None in
  match messages with
  | [] =>
      let* c := now_iso in
      let* u := now_iso in
      ret (JObj [("id", JStr conversation_id); ("created_at", JStr c);
                 ("updated_at", JStr u); ("participants", JArr []);
                 ("message_count", JInt 0); ("topic", JStr "");
                 ("status", JStr "active")])
  | first :: _ =>
      let* participants := lift (participants_of messages) in
      let* created := lift (getitem first "timestamp") in
      let* updated := lift (getitem (List.last messages first) "timestamp") in
      let* content := lift (dict_get first "content" (JStr "")) in
      let* topic := lift (slice_100 content) in
      let metadata :=
        JObj [("id", JStr conversation_id); ("created_at", created);
              ("updated_at", updated); ("participants", JArr participants);
              ("message_count", JInt (Z.of_nat (length messages)));
              ("topic", topic); ("status", JStr "active")] in
      let* _ := _save_metadata conversation_id metadata in
      ret metadata
  end.

Definition get_metadata (conversation_id : string) : M jval :=
  let meta_path := _get_metadata_path conversation_id in
  let* ex := exists_file meta_path in
  if negb ex then _generate_metadata conversation_id
  else let* txt := read_file meta_path in lift (loads rt txt).

(** [speaker in v] *)
Definition py_in_str (speaker : string) (v : jval) : res bool :=
  match v with
  | JArr l => Ok (existsb (fun x => match x with
                                    | JStr s => String.eqb s speaker
                                    | _ => false
                                    end) l)
  | JStr s => Ok (PyStr.contains speaker s)
  | JObj kv => Ok (existsb (fun '(k, _) => String.eqb k speaker) kv)
  | _ => Err (TypeError "argument is not iterable")
  end.

(** [v.append(speaker)] *)
Definition py_append_str (v : jval) (speaker : string) : res jval :=
  match v with
  | JArr l => Ok (JArr (l ++ [JStr speaker]))
  | _ => Err (AttributeError "object has no attribute 'append'")
  end.

Definition _update_metadata_on_append (conversation_id speaker : string) : M unit :=
  let* metadata := get_metadata conversation_id in
  let* t := now_iso in
  let* metadata := lift (setitem metadata "updated_at" (JStr t)) in
  let* n := _count_messages conversation_id in
  let* metadata := lift (setitem metadata "message_count" (JInt n)) in
  let* parts := lift (getitem metadata "participants") in
  let* present := lift (py_in_str speaker parts) in
  let* metadata :=
    if present then ret metadata
    else let* parts' := lift (py_append_str parts speaker) in
         lift (setitem metadata "participants" parts') in
  _save_metadata conversation_id metadata.

(** The record [append_message] writes. *)
Definition message_record (turn : Z) (speaker content timestamp : string)
    (metadata : list (string * jval)) : jval :=
  JObj [("turn", JInt turn); ("speaker", JStr speaker); ("content", JStr content);
        ("timestamp", JStr timestamp); ("metadata", JObj metadata)].

Definition append_message (conversation_id speaker content : string)
    (metadata : option (list (string * jval))) : M unit :=
  let* _ := _migrate_if_needed conversation_id in
  let conv_path := _get_conversation_path conversation_id in
  let* message_count := _count_messages conversation_id in
  let* ts := now_iso in
  let message := message_record (message_count + 1) speaker content ts
                   (default [] metadata) in
  let* _ := append_file conv_path (dumps rt message ++ String "010"%char EmptyString) in
  _update_metadata_on_append conversation_id speaker.

(** [if metadata] on an optional dict *)
Definition dict_truthy (m : option (list (string * jval))) : bool :=
  match m with Some (_ :: _) => true | _ => false end.

Definition create_conversation (conversation_id : option string)
    (initial_message : string) (metadata : option (list (string * jval)))
    (host_name : string) : M string :=
  let* conversation_id :=
    match conversation_id with
    | Some cid => if String.eqb cid "" then
                    let* timestamp := now_strftime in
                    let* random_suffix := randint_draw in
                    ret ("conversation_" ++ timestamp ++ "_" ++ PyStr.str_of_Z random_suffix)
                  else ret cid
    | None => let* timestamp := now_strftime in
              let* random_suffix := randint_draw in
              ret ("conversation_" ++ timestamp ++ "_" ++ PyStr.str_of_Z random_suffix)
    end in
  let sanitized_id := _sanitize_id conversation_id in
  if String.eqb sanitized_id "" then ret "" else
  let* ex := conversation_exists sanitized_id in
  if ex then raise (ValueError ("Conversation " ++ sanitized_id ++ " already exists")) else
  let* _ := touch (_get_conversation_path sanitized_id) in
  let speaker := if String.eqb host_name "" then "host" else "host_" ++ host_name in
  let* _ := if String.eqb initial_message "" then ret tt
            else append_message sanitized_id speaker initial_message (Some []) in
  let* c := now_iso in
  let* u := now_iso in
  let* topic := if dict_truthy metadata
                then lift (dict_get (JObj (default [] metadata)) "topic" (JStr ""))
                else ret (JStr "") in
  let* tags := if dict_truthy metadata
               then lift (dict_get (JObj (default [] metadata)) "tags" (JArr []))
               else ret (JArr []) in
  let meta := JObj [("id", JStr sanitized_id); ("created_at", JStr c);
                    ("updated_at", JStr u);
                    ("participants", JArr (if String.eqb initial_message "" then []
                                           else [JStr speaker]));
                    ("message_count", JInt (if String.eqb initial_message "" then 0 else 1));
                    ("topic", topic); ("tags", tags); ("status", JStr "active")] in
  let* _ := _save_metadata sanitized_id meta in
  ret sanitized_id.

End WithRuntime.

(** *** A concrete runtime, to run the store on examples

    A small [json] module over [jval] (compact separators [", "] and
    [": "], [ensure_ascii=False]; integers only), Python's 4300-digit
    limit on integer literals included, a seeded string hash, a clock
    and a random source. *)

Local Open Scope string_scope.

Definition hex_digit (n : nat) : ascii :=
  if (n <? 10)%nat then ascii_of_nat (48 + n) else ascii_of_nat (87 + n).

(** The double quote character. *)
Definition DQ : ascii := "034"%char.

Definition escape_char (c : ascii) : string :=
  let n := nat_of_ascii c in
  if Ascii.eqb c DQ then String "\" (String DQ EmptyString)
  else if Ascii.eqb c "\" then String "\" (String "\" EmptyString)
  else if (n =? 10)%nat then "\n"
  else if (n =? 13)%nat then "\r"
  else if (n =? 9)%nat then "\t"
  else if (n =? 8)%nat then "\b"
  else if (n =? 12)%nat then "\f"
  else if (n <? 32)%nat then
    "\u00" ++ String (hex_digit (n / 16)) (String (hex_digit (n mod 16)) EmptyString)
  else String c EmptyString.

Fixpoint escape (s : string) : string :=
  match s with
  | EmptyString => EmptyString
  | String c s' => escape_char c ++ escape s'
  end.

Definition quote (s : string) : string := String DQ (escape s ++ String DQ EmptyString).

Fixpoint mini_dumps (v : jval) : string :=
  match v with
  | JNull => "null"
  | JBool true => "true"
  | JBool false => "false"
  | JInt z => PyStr.str_of_Z z
  | JStr s => quote s
  | JArr l => "[" ++ String.concat ", " (map mini_dumps l) ++ "]"
  | JObj kv =>
      "{" ++ String.concat ", " (map (fun '(k, x) => quote k ++ ": " ++ mini_dumps x) kv)
      ++ "}"
  end.

Definition is_ws (c : ascii) : bool :=
  let n := nat_of_ascii c in (n =? 32)%nat || (n =? 9)%nat || (n =? 10)%nat || (n =? 13)%nat.

Fixpoint skip_ws (s : list ascii) : list ascii :=
  match s with
  | c :: r => if is_ws c then skip_ws r else s
  | [] => []
  end.

Definition is_digit (c : ascii) : bool :=
  let n := nat_of_ascii c in (48 <=? n)%nat && (n <=? 57)%nat.

Fixpoint take_digits (s : list ascii) : list ascii * list ascii :=
  match s with
  | c :: r => if is_digit c then let '(d, r') := take_digits r in (c :: d, r') else ([], s)
  | [] => ([], [])
  end.

Definition Z_of_digits (ds : list ascii) : Z :=
  fold_left (fun acc c => acc * 10 + Z.of_nat (nat_of_ascii c - 48)) ds 0.

Definition hex_val (c : ascii) : option nat :=
  let n := nat_of_ascii c in
  if (48 <=? n)%nat && (n <=? 57)%nat then Some (n - 48)%nat
  else if (97 <=? n)%nat && (n <=? 102)%nat then Some (n - 87)%nat
  else if (65 <=? n)%nat && (n <=? 70)%nat then Some (n - 55)%nat
  else None.

Section Parser.
(** Length of the whole input, to report positions as [json] does. *)
Variable n0 : nat.
Definition perr {A} (s : list ascii) : res A := Err (JSONDecodeError (n0 - length s)).

Fixpoint pstring (s : list ascii) (acc : list ascii) : res (string * list ascii) :=
  match s with
  | [] => perr s
  | c :: r =>
      if Ascii.eqb c DQ then Ok (string_of_list_ascii (rev acc), r)
      else if (nat_of_ascii c <? 32)%nat then perr s
      else if Ascii.eqb c "\" then
        match r with
        | e :: r' =>
            let simple x := pstring r' (x :: acc) in
            if Ascii.eqb e DQ then simple DQ
            else if Ascii.eqb e "\" then simple "\"%char
            else if Ascii.eqb e "/" then simple "/"%char
            else if Ascii.eqb e "n" then simple "010"%char
            else if Ascii.eqb e "r" then simple "013"%char
            else if Ascii.eqb e "t" then simple "009"%char
            else if Ascii.eqb e "b" then simple "008"%char
            else if Ascii.eqb e "f" then simple "012"%char
            else if Ascii.eqb e "u" then
              match r' with
              | h1 :: h2 :: h3 :: h4 :: r'' =>
                  match hex_val h1, hex_val h2, hex_val h3, hex_val h4 with
                  | Some 0%nat, Some 0%nat, Some a, Some b =>
                      pstring r'' (ascii_of_nat (a * 16 + b) :: acc)
                  | _, _, _, _ => perr s
                  end
              | _ => perr s
              end
            else perr s
        | [] => perr s
        end
      else pstring r (c :: acc)
  end.

Definition pnumber (s : list ascii) : res (jval * list ascii) :=
  let '(neg, s1) := match s with
                    | c :: r => if Ascii.eqb c "-" then (true, r) else (false, s)
                    | [] => (false, s)
                    end in
  match s1 with
  | c :: r =>
      if Ascii.eqb c "0" then Ok (JInt 0, r)
      else if is_digit c then
        let '(ds, rest) := take_digits s1 in
        if (4300 <? length ds)%nat then
          Err (ValueError ("Exceeds the limit (4300 digits) for integer string conversion: value has "
                           ++ PyStr.str_of_Z (Z.of_nat (length ds))
                           ++ " digits; use sys.set_int_max_str_digits() to increase the limit"))
        else let z := Z_of_digits ds in Ok (JInt (if neg then - z else z), rest)
      else perr s
  | [] => perr s
  end.

Definition expect (word : list ascii) (v : jval) (s : list ascii) : res (jval * list ascii) :=
  if bool_decide (firstn (length word) s = word)
  then Ok (v, drop (length word) s) else perr s.

Fixpoint pvalue (fuel : nat) (s : list ascii) : res (jval * list ascii) :=
  match fuel with
  | O => perr s
  | S f =>
      match s with
      | [] => perr s
      | c :: r =>
          if Ascii.eqb c "n" then expect (list_ascii_of_string "null") JNull s
          else if Ascii.eqb c "t" then expect (list_ascii_of_string "true") (JBool true) s
          else if Ascii.eqb c "f" then expect (list_ascii_of_string "false") (JBool false) s
          else if Ascii.eqb c DQ then
            match pstring r [] with
            | Ok (str, r') => Ok (JStr str, r')
            | Err e => Err e
            end
          else if Ascii.eqb c "[" then
            match skip_ws r with
            | c' :: r' => if Ascii.eqb c' "]" then Ok (JArr [], r')
                          else pitems f (skip_ws r) []
            | [] => perr []
            end
          else if Ascii.eqb c "{" then
            match skip_ws r with
            | c' :: r' => if Ascii.eqb c' "}" then Ok (JObj [], r')
                          else pmembers f (skip_ws r) []
            | [] => perr []
            end
          else if Ascii.eqb c "-" || is_digit c then pnumber s
          else perr s
      end
  end
with pitems (fuel : nat) (s : list ascii) (acc : list jval) : res (jval * list ascii) :=
  match fuel with
  | O => perr s
  | S f =>
      match pvalue f s with
      | Err e => Err e
      | Ok (v, r) =>
          match skip_ws r with
          | c :: r' =>
              if Ascii.eqb c "," then pitems f (skip_ws r') (acc ++ [v])
              else if Ascii.eqb c "]" then Ok (JArr (acc ++ [v]), r')
              else perr (c :: r')
          | [] => perr []
          end
      end
  end
with pmembers (fuel : nat) (s : list ascii) (acc : list (string * jval))
  : res (jval * list ascii) :=
  match fuel with
  | O => perr s
  | S f =>
      match s with
      | c :: r =>
          if Ascii.eqb c DQ then
            match pstring r [] with
            | Err e => Err e
            | Ok (k, r1) =>
                match skip_ws r1 with
                | c1 :: r2 =>
                    if Ascii.eqb c1 ":" then
                      match pvalue f (skip_ws r2) with
                      | Err e => Err e
                      | Ok (v, r3) =>
                          let acc' := assoc_set k v acc in
                          match skip_ws r3 with
                          | c3 :: r4 =>
                              if Ascii.eqb c3 "," then pmembers f (skip_ws r4) acc'
                              else if Ascii.eqb c3 "}" then Ok (JObj acc', r4)
                              else perr (c3 :: r4)
                          | [] => perr []
                          end
                      end
                    else perr (c1 :: r2)
                | [] => perr []
                end
            end
          else perr s
      | [] => perr s
      end
  end.
End Parser.

Definition mini_loads (txt : string) : res jval :=
  let s := list_ascii_of_string txt in
  let n0 := length s in
  match pvalue n0 (2 * n0 + 2) (skip_ws s) with
  | Err e => Err e
  | Ok (v, rest) =>
      match skip_ws rest with
      | [] => Ok v
      | r => Err (JSONDecodeError (n0 - length r))
      end
  end.

(** A seeded FNV-1a style string hash standing for [hash(str)] under one
    [PYTHONHASHSEED]; signed 64-bit. *)
Definition seeded_hash (seed : Z) (s : string) : Z :=
  let u := fold_left (fun h c => ((Z.lxor h (PyStr.code c)) * 1099511628211) mod 2 ^ 64)
             (list_ascii_of_string s) ((14695981039346656037 + seed) mod 2 ^ 64) in
  if (u <? 2 ^ 63)%Z then u else (u - 2 ^ 64)%Z.

Definition mk_runtime (seed : Z) : runtime :=
  {| dumps := mini_dumps; dumps_indent := mini_dumps; loads := mini_loads;
     str_hash := seeded_hash seed;
     isoformat := fun n => "2026-10-17T12:00:" ++ PyStr.str_of_Z (Z.of_nat n);
     strftime_id := fun n => "20261017_120000_" ++ PyStr.str_of_Z (Z.of_nat n);
     randint := fun n => 1000 + Z.of_nat n |}.

Definition empty_state : state :=
  {| files := ∅; ticks := 0; draws := 0; printed := [] |}.

(** A dumped record that [read_messages] reads back as one line: no line
    break inside, nothing for [strip] to remove, not empty, and
    [json.loads] returns the record. *)
Definition newline_free (txt : string) : bool :=
  negb (PyStr.contains (String "010"%char EmptyString) txt)
  && negb (PyStr.contains (String "013"%char EmptyString) txt).

Definition line_codec_ok (rt : runtime) (v : jval) : Prop :=
  loads rt (dumps rt v) = Ok v /\ newline_free (dumps rt v) = true
  /\ PyStr.strip (dumps rt v) = dumps rt v /\ dumps rt v <> EmptyString.

(** A log that ends at a line boundary: empty or ending in a newline. *)
Definition line_terminated (txt : string) : bool :=
  match rev (list_ascii_of_string txt) with
  | [] => true
  | c :: _ => Ascii.eqb c "010"%char
  end.

(** Whether every character of a string satisfies [f]. *)
Fixpoint all_chars (f : ascii -> bool) (s : string) : bool :=
  match s with
  | EmptyString => true
  | String c s' => f c && all_chars f s'
  end.


Definition NL : ascii := "010"%char.
Definition CR : ascii := "013"%char.

(** A computation keeps the file [p]: if [p] holds [t] before, it holds
    [t] after, whatever the outcome. *)
Definition keeps {A} (p : string) (c : M A) : Prop :=
  forall st t, files st !! p = Some t -> files (snd (c st)) !! p = Some t.

(** A computation that touches neither the files nor the clock. *)
Definition quiet {A} (c : M A) : Prop :=
  forall st, files (snd (c st)) = files st /\ ticks (snd (c st)) = ticks st.

(** A computation leaves the file name [p] alone: present or absent,
    [p] holds after what it held before, whatever the outcome. *)
Definition untouched {A} (p : string) (c : M A) : Prop :=
  forall st, files (snd (c st)) !! p = files st !! p.

(** The four file names of a conversation: its log, its metadata, its
    legacy file and the legacy file's backup. *)
Definition conversation_files (cid : string) : list string :=
  [_get_conversation_path cid; _get_metadata_path cid; legacy_path cid; backup_path cid].

End Conversation.

(* ================================================================== *)
(** * Properties *)

Module ContextSelectorFacts.
Import ContextSelector.

Section Facts.
Context {A : Type}.
Variable field_len : A -> string -> res Z.

(** C2: with no token budget, [select(M, "smart")] is [M] when [M] has
    fewer than 10 messages, and otherwise [M[0]] followed by [M[-5:]],
    which is 6 messages. *)
Theorem smart_select_first_and_last_five (M : list A) :
  select field_len M "smart" None =
    Ok (if (length M <? 10)%nat then M else take 1 M ++ drop (length M - 5) M)
  /\ length (if (length M <? 10)%nat then M else take 1 M ++ drop (length M - 5) M)
     = (if (length M <? 10)%nat then length M else 6%nat).
Proof.
  unfold select, _smart_select, last_n; simpl.
  destruct (length M <? 10)%nat eqn:E; [split; reflexivity|].
  apply Nat.ltb_ge in E.
  destruct M as [|m0 rest]; simpl in *; [lia|].
  split; [reflexivity|].
  rewrite length_drop; simpl; lia.
Qed.

End Facts.
End ContextSelectorFacts.

Module AdapterFacts.
Import Adapters.

Lemma place_message_spec (message : pystr) (args : list pystr) :
  place_message message args =
    (map (fun a => if lcontains (lit "{message}") a
                   then py_replace (lit "{message}") message a else a) args,
     existsb (lcontains (lit "{message}")) args).
Proof.
  induction args as [|a rest IH]; simpl; [reflexivity|].
  rewrite IH. destruct (lcontains (lit "{message}") a); reflexivity.
Qed.

(** C8 (as the code does it): in [arg] mode each configured arg that
    contains the [{message}] placeholder has every occurrence replaced by
    the message, the other args are kept verbatim, and the message is
    appended as a last argument when no arg held the placeholder and the
    message is not empty.  Standard input carries no message: it is
    empty, unless history is passed and non-empty, in which case the
    rendered history alone is sent on standard input. *)
Theorem arg_mode_command (cfg : adapter_config) (message : pystr)
    (history : option (list hist_msg)) (pass_history : bool)
    (Harg : a_input_method cfg = Some (lit "arg")) :
  build_command cfg message history pass_history =
    ([a_command cfg]
     ++ map (fun a => if lcontains (lit "{message}") a
                      then py_replace (lit "{message}") message a else a)
            (default [] (a_args cfg))
     ++ (if negb (existsb (lcontains (lit "{message}")) (default [] (a_args cfg)))
            && bool_decide (message <> []) then [message] else []),
     match history with
     | Some ((_ :: _) as h) => if pass_history then Some (_format_history h) else None
     | _ => None
     end).
Proof.
  unfold build_command. rewrite Harg. simpl.
  rewrite place_message_spec.
  destruct (negb _ && bool_decide _); simpl; try rewrite app_nil_r;
    destruct history as [[|h hs]|]; try reflexivity;
    destruct pass_history; reflexivity.
Qed.

Lemma arg_mode_command_witness :
  a_input_method {| a_name := lit "a"; a_command := lit "llm";
                    a_args := Some [lit "-p"; lit "{message}"];
                    a_input_method := Some (lit "arg");
                    a_timeout_seconds := None |} = Some (lit "arg")
  /\ build_command {| a_name := lit "a"; a_command := lit "llm";
                      a_args := Some [lit "-p"; lit "{message}"];
                      a_input_method := Some (lit "arg");
                      a_timeout_seconds := None |} (lit "hi") None true
     = ([lit "llm"; lit "-p"; lit "hi"], None).
Proof.
  split; [reflexivity|].
  rewrite (arg_mode_command {| a_name := lit "a"; a_command := lit "llm";
                               a_args := Some [lit "-p"; lit "{message}"];
                               a_input_method := Some (lit "arg");
                               a_timeout_seconds := None |} (lit "hi") None true
             eq_refl).
  vm_compute. reflexivity.
Defined.

(** C8 refuted: in [arg] mode with history passed, the history is sent on
    standard input, so standard input is used. *)
Lemma arg_mode_stdin_carries_history :
  snd (build_command {| a_name := lit "a"; a_command := lit "llm";
                        a_args := Some [lit "{message}"];
                        a_input_method := Some (lit "arg");
                        a_timeout_seconds := None |} (lit "hi")
         (Some [{| h_speaker := Some (lit "user"); h_content := Some (lit "earlier") |}])
         true)
  = Some (lit "user: earlier").
Proof. vm_compute. reflexivity. Qed.

(** ** Encoding standard input *)

Lemma encode_ok pos (s : pystr) : existsb is_surrogate s = false ->
  exists bs, utf8_encode pos s = inl bs.
Proof.
  revert pos. induction s as [|c s IH]; intros pos H; [eexists; reflexivity|].
  simpl in H |- *. apply orb_false_iff in H as [Hc Hs]. rewrite Hc.
  destruct (IH (S pos) Hs) as [bs ->]. eexists; reflexivity.
Qed.

Lemma encode_fails pos (s : pystr) : existsb is_surrogate s = true ->
  exists e, utf8_encode pos s = inr e.
Proof.
  revert pos. induction s as [|c s IH]; intros pos H; [discriminate|].
  simpl in H |- *. destruct (is_surrogate c); [eexists; reflexivity|].
  destruct (IH (S pos) H) as [e ->]. eexists; reflexivity.
Qed.

Lemma stdin_bytes_ok si : existsb is_surrogate (default [] si) = false ->
  exists x, stdin_bytes si = inl x.
Proof.
  intros H. unfold stdin_bytes. destruct (truthy si); [|eexists; reflexivity].
  destruct (encode_ok 0 _ H) as [bs ->]. eexists; reflexivity.
Qed.

Lemma stdin_bytes_fails si : existsb is_surrogate (default [] si) = true ->
  exists e, utf8_encode 0 (default [] si) = inr e /\ stdin_bytes si = inr e.
Proof.
  intros H. destruct (encode_fails 0 _ H) as [e He]. exists e. split; [exact He|].
  unfold stdin_bytes. destruct si as [[|c s]|]; try discriminate. simpl in *.
  rewrite He. reflexivity.
Qed.

(** [_call_bash_adapter] on a spawned process, with the encoding of
    standard input named. *)
Lemma call_runs cfg message history pass_history spawn_ms comm_ms rc out err os :
  _call_bash_adapter cfg message history pass_history (Runs spawn_ms comm_ms rc out err) os
  = let si := snd (build_command cfg message history pass_history) in
    let os1 := {| procs := procs os ++ [(next_pid os, Running)];
                  next_pid := next_pid os + 1 |} in
    match stdin_bytes si with
    | inr e =>
        ({| response := []; r_adapter := a_name cfg; exit_code := -1;
            execution_time_ms := spawn_ms;
            error := Some (encode_error_text (default [] si) e) |}, os1)
    | inl _ =>
      if timeout_of cfg * 1000 <? comm_ms then
        ({| response := []; r_adapter := a_name cfg; exit_code := -1;
            execution_time_ms := timeout_of cfg * 1000;
            error := Some (lit "Command timed out after " ++ str_int (timeout_of cfg)
                           ++ lit " seconds") |}, os1)
      else
        let os2 := set_status (next_pid os) (Exited rc) os1 in
        let failure obj e :=
          ({| response := []; r_adapter := a_name cfg; exit_code := -1;
              execution_time_ms := spawn_ms + comm_ms;
              error := Some (decode_error_text obj e) |}, os2) in
        match utf8_decode 0 out with
        | inr e => failure out e
        | inl out_text =>
            match (match err with
                   | [] => inl None
                   | _ => match utf8_decode 0 err with
                          | inl t => inl (Some (strip t))
                          | inr e => inr e
                          end
                   end) with
            | inr e => failure err e
            | inl error =>
                ({| response := strip out_text; r_adapter := a_name cfg;
                    exit_code := rc; execution_time_ms := spawn_ms + comm_ms;
                    error := if rc =? 0 then None else error |}, os2)
            end
        end
    end.
Proof.
  unfold _call_bash_adapter, stdin_bytes, timeout_of.
  destruct (build_command cfg message history pass_history) as [fc si]. reflexivity.
Qed.

(** C9 (failing input): a process that exits 0 within the timeout, with
    stdout "ok" and the single stderr byte 0xff.  [stderr.decode("utf-8")]
    raises before the exit code is looked at, so the call reports exit
    code -1, an empty response and the decoder's message, where at exit
    code 0 the error should be absent whatever stderr holds. *)
Theorem clean_exit_invalid_stderr :
  let r := fst (_call_bash_adapter
                  {| a_name := lit "a"; a_command := lit "llm"; a_args := None;
                     a_input_method := None; a_timeout_seconds := None |}
                  (lit "hi") None false (Runs 3 10 0 (lit "ok") [255])
                  {| procs := []; next_pid := 1 |}) in
  exit_code r = -1 /\ response r = [] /\
  error r = Some (lit "'utf-8' codec can't decode byte 0xff in position 0: invalid start byte").
Proof. vm_compute. repeat split. Qed.

(** C4 (as the code does it): when the process outlives the timeout and
    the text for standard input has no surrogate, the call returns,
    without raising, an empty response, exit code -1, the timeout in
    milliseconds as duration and the error "Command timed out after
    <timeout> seconds".  When that text holds a surrogate, the call
    returns before any timeout: exit code -1 and the encoding error.
    Either way the spawned process is not terminated: it is still
    running when the call returns. *)
Theorem timeout_result (cfg : adapter_config) (message : pystr)
    (history : option (list hist_msg)) (pass_history : bool)
    (spawn_ms comm_ms rc : Z) (out err : list Z) (os : os_state)
    (Hlate : timeout_of cfg * 1000 < comm_ms) :
  let stdin := default [] (snd (build_command cfg message history pass_history)) in
  let '(r, os') := _call_bash_adapter cfg message history pass_history
                     (Runs spawn_ms comm_ms rc out err) os in
  (existsb is_surrogate stdin = false ->
   r = {| response := []; r_adapter := a_name cfg; exit_code := -1;
          execution_time_ms := timeout_of cfg * 1000;
          error := Some (lit "Command timed out after " ++ str_int (timeout_of cfg)
                         ++ lit " seconds") |})
  /\ (existsb is_surrogate stdin = true ->
      exists e, utf8_encode 0 stdin = inr e /\
      r = {| response := []; r_adapter := a_name cfg; exit_code := -1;
             execution_time_ms := spawn_ms;
             error := Some (encode_error_text stdin e) |})
  /\ In (next_pid os, Running) (procs os').
Proof.
  cbv zeta. rewrite call_runs. cbv zeta.
  set (si := snd (build_command cfg message history pass_history)).
  assert (Hn : (timeout_of cfg * 1000 <? comm_ms) = true) by (apply Z.ltb_lt; lia).
  assert (Hrun : In (next_pid os, Running) (procs os ++ [(next_pid os, Running)]))
    by (apply in_or_app; right; left; reflexivity).
  destruct (existsb is_surrogate (default [] si)) eqn:Hs.
  - destruct (stdin_bytes_fails si Hs) as (e & He & Hb). rewrite Hb.
    split; [discriminate|]. split; [|exact Hrun].
    intros _. exists e. split; [exact He|reflexivity].
  - destruct (stdin_bytes_ok si Hs) as [x Hb]. rewrite Hb, Hn.
    split; [reflexivity|]. split; [discriminate|exact Hrun].
Qed.

Lemma timeout_result_witness :
  timeout_of {| a_name := lit "slow"; a_command := lit "sleep"; a_args := Some [lit "5"];
                a_input_method := None; a_timeout_seconds := Some 1 |} * 1000 < 5000
  /\ _call_bash_adapter
       {| a_name := lit "slow"; a_command := lit "sleep"; a_args := Some [lit "5"];
          a_input_method := None; a_timeout_seconds := Some 1 |}
       (lit "go") None false (Runs 2 5000 0 [] []) {| procs := []; next_pid := 7 |}
     = ({| response := []; r_adapter := lit "slow"; exit_code := -1;
           execution_time_ms := 1000;
           error := Some (lit "Command timed out after 1 seconds") |},
        {| procs := [(7, Running)]; next_pid := 8 |}).
Proof.
  assert (Hl : timeout_of {| a_name := lit "slow"; a_command := lit "sleep";
                             a_args := Some [lit "5"]; a_input_method := None;
                             a_timeout_seconds := Some 1 |} * 1000 < 5000)
    by (vm_compute; reflexivity).
  split; [exact Hl|].
  pose proof (timeout_result
                {| a_name := lit "slow"; a_command := lit "sleep"; a_args := Some [lit "5"];
                   a_input_method := None; a_timeout_seconds := Some 1 |}
                (lit "go") None false 2 5000 0 [] [] {| procs := []; next_pid := 7 |} Hl) as H.
  cbv zeta in H.
  destruct (_call_bash_adapter _ _ _ _ _ _) as [r os'] eqn:E.
  destruct H as [Hr _]. rewrite (Hr ltac:(vm_compute; reflexivity)).
  f_equal.
  change os' with (snd (r, os')). rewrite <- E. vm_compute. reflexivity.
Defined.

(** C4 refuted: [timeout_seconds = 1] and a command that runs 5 s: when
    the call has returned, the process is still running, not killed. *)
Lemma timeout_leaves_process_running :
  let '(r, os') := _call_bash_adapter
                     {| a_name := lit "slow"; a_command := lit "sleep"; a_args := Some [lit "5"];
                        a_input_method := None; a_timeout_seconds := Some 1 |}
                     [] None false (Runs 2 5000 0 [] []) {| procs := []; next_pid := 7 |} in
  exit_code r = -1 /\ procs os' = [(7, Running)] /\ ~ In (7, Killed) (procs os').
Proof. vm_compute. split; [reflexivity|]. split; [reflexivity|]. intros [H|H]; [discriminate|exact H]. Qed.

End AdapterFacts.

Module ConversationFacts.
Import Conversation.
Local Open Scope string_scope.

(** ** Running the monad step by step *)

Lemma bind_ok {A B} (c : M A) (k : A -> M B) st a st' :
  c st = (Ok a, st') -> bind c k st = k a st'.
Proof. unfold bind. intros ->. reflexivity. Qed.

Lemma bind_err {A B} (c : M A) (k : A -> M B) st e st' :
  c st = (Err e, st') -> bind c k st = (Err e, st').
Proof. unfold bind. intros ->. reflexivity. Qed.

(** ** File names *)

Lemma filter_all_chars f s : all_chars f (PyStr.filter_str f s) = true.
Proof.
  induction s as [|c s IH]; simpl; [reflexivity|].
  destruct (f c) eqn:E; simpl; [rewrite E|]; assumption.
Qed.

Lemma sanitize_safe cid : all_chars PyStr.safe_char (_sanitize_id cid) = true.
Proof.
  unfold _sanitize_id.
  destruct (_ || _ || _); [reflexivity|].
  destruct (String.eqb _ ""); [reflexivity|apply filter_all_chars].
Qed.

Lemma safe_not_dot : PyStr.safe_char "." = false.
Proof. reflexivity. Qed.

Lemma append_cancel_l (s a b : string) : s ++ a = s ++ b -> a = b.
Proof. induction s as [|c s IH]; simpl; [auto|]. intros H. injection H. auto. Qed.

Lemma conv_ne_meta cid : _get_conversation_path cid <> _get_metadata_path cid.
Proof.
  unfold _get_conversation_path, _get_metadata_path.
  pose proof (sanitize_safe cid) as Hs.
  destruct (_sanitize_id cid) as [|c s]; simpl; [discriminate|].
  intros H. injection H as Hc _. subst c. simpl in Hs. discriminate.
Qed.

Lemma conv_ne_legacy cid : _get_conversation_path cid <> legacy_path cid.
Proof.
  unfold _get_conversation_path, legacy_path. intros H.
  apply append_cancel_l in H. discriminate.
Qed.

Lemma conv_ne_backup cid : _get_conversation_path cid <> backup_path cid.
Proof.
  unfold _get_conversation_path, backup_path. intros H.
  apply append_cancel_l in H. discriminate.
Qed.

Lemma legacy_ne_meta cid : legacy_path cid <> _get_metadata_path cid.
Proof.
  unfold legacy_path, _get_metadata_path.
  pose proof (sanitize_safe cid) as Hs.
  destruct (_sanitize_id cid) as [|c s]; simpl; [discriminate|].
  intros H. injection H as Hc _. subst c. simpl in Hs. discriminate.
Qed.

Lemma filter_safe_fix s :
  all_chars PyStr.safe_char s = true -> PyStr.filter_str PyStr.safe_char s = s.
Proof.
  induction s as [|c s IH]; simpl; [reflexivity|].
  intros H. apply andb_prop in H as [H1 H2]. rewrite H1, IH by exact H2.
  reflexivity.
Qed.

Lemma safe_no_sep s : all_chars PyStr.safe_char s = true ->
  PyStr.contains "/" s || PyStr.contains "\" s || PyStr.contains ".." s = false.
Proof.
  induction s as [|c s IH]; [reflexivity|].
  intros H. simpl in H. apply andb_prop in H as [H1 H2].
  specialize (IH H2). apply orb_false_iff in IH as [IH IH3].
  apply orb_false_iff in IH as [IH1 IH2].
  unfold PyStr.contains; fold PyStr.contains.
  rewrite IH1, IH2, IH3.
  unfold PyStr.safe_char, PyStr.isalnum, PyStr.code in H1.
  destruct c as [[] [] [] [] [] [] [] []]; simpl in *; try discriminate;
    reflexivity.
Qed.

(** An identifier made of safe characters only is its own sanitized
    form. *)
Lemma sanitize_of_safe cid :
  all_chars PyStr.safe_char cid = true -> cid <> "" -> _sanitize_id cid = cid.
Proof.
  intros Hs Hne. unfold _sanitize_id. rewrite (safe_no_sep _ Hs), (filter_safe_fix _ Hs).
  destruct (String.eqb cid "") eqn:E; [apply String.eqb_eq in E; contradiction|reflexivity].
Qed.

(** The path functions only see the sanitized identifier. *)
Lemma sanitize_idempotent cid :
  _sanitize_id (_sanitize_id cid) = _sanitize_id cid.
Proof.
  pose proof (sanitize_safe cid) as Hs.
  unfold _sanitize_id at 1. rewrite (safe_no_sep _ Hs), (filter_safe_fix _ Hs).
  destruct (String.eqb (_sanitize_id cid) "") eqn:E; [|reflexivity].
  apply String.eqb_eq in E. rewrite E. reflexivity.
Qed.

(** What [_sanitize_id] rejects. *)
Lemma sanitize_rejects cid :
  PyStr.contains "/" cid || PyStr.contains "\" cid || PyStr.contains ".." cid
  || String.eqb (PyStr.filter_str PyStr.safe_char cid) "" = true ->
  _sanitize_id cid = "".
Proof.
  unfold _sanitize_id.
  destruct (PyStr.contains "/" cid || PyStr.contains "\" cid || PyStr.contains ".." cid);
    [reflexivity|].
  simpl. intros H. rewrite H. reflexivity.
Qed.

(** ** Migration *)

Lemma migrate_present rt cid st t :
  files st !! _get_conversation_path cid = Some t ->
  _migrate_if_needed rt cid st = (Ok tt, st).
Proof.
  intros H. unfold _migrate_if_needed, bind, exists_file, ret. simpl.
  rewrite H. reflexivity.
Qed.

Lemma migrate_absent rt cid st :
  files st !! _get_conversation_path cid = None ->
  files st !! legacy_path cid = None ->
  _migrate_if_needed rt cid st = (Ok tt, st).
Proof.
  intros H1 H2. unfold _migrate_if_needed, bind, exists_file, ret.
  cbn -[legacy_path _get_conversation_path lookup].
  rewrite H1. cbn -[legacy_path _get_conversation_path lookup].
  rewrite H2. reflexivity.
Qed.

(** C6: once the line-oriented log of a conversation exists, migration
    returns at once and leaves every file (hence every backup and every
    record) as it was. *)
Theorem migration_skips_existing_log (rt : runtime) (cid : string) (st : state)
    (t : string) (Hlog : files st !! _get_conversation_path cid = Some t) :
  _migrate_if_needed rt cid st = (Ok tt, st).
Proof. exact (migrate_present rt cid st t Hlog). Qed.

Lemma migration_skips_existing_log_witness :
  let st := {| files := <["c.json" := "[]"]> (<["c.jsonl" := ""]> ∅);
               ticks := 0; draws := 0; printed := [] |} in
  files st !! _get_conversation_path "c" = Some ""
  /\ _migrate_if_needed (mk_runtime 0) "c" st = (Ok tt, st).
Proof.
  intros st. split; [vm_compute; reflexivity|].
  exact (migration_skips_existing_log (mk_runtime 0) "c" st "" ltac:(vm_compute; reflexivity)).
Defined.

(** ** Lines of a log *)

Section Lines.
Local Open Scope list_scope.

Lemma list_ascii_app (a b : string) :
  list_ascii_of_string (a ++ b)%string = list_ascii_of_string a ++ list_ascii_of_string b.
Proof. induction a as [|c a IH]; simpl; [reflexivity|]. rewrite IH. reflexivity. Qed.

Lemma universal_nl_cr_cons (c : ascii) (r : list ascii) :
  universal_nl (CR :: c :: r) =
  if Ascii.eqb c NL then NL :: universal_nl r else NL :: universal_nl (c :: r).
Proof. reflexivity. Qed.

Lemma universal_nl_other (c : ascii) (r : list ascii) :
  Ascii.eqb c CR = false -> universal_nl (c :: r) = c :: universal_nl r.
Proof. intros H. simpl. unfold CR in H. rewrite H. reflexivity. Qed.

Lemma universal_nl_app (l1 l2 : list ascii) :
  (forall l0, l1 <> l0 ++ [CR]) ->
  universal_nl (l1 ++ l2) = universal_nl l1 ++ universal_nl l2.
Proof.
  induction l1 as [l1 IH] using (induction_ltof1 _ (@length _)); unfold ltof in IH.
  destruct l1 as [|c r]; intros Hcr; [reflexivity|].
  destruct (Ascii.eqb c CR) eqn:Ec.
  - apply Ascii.eqb_eq in Ec. subst c.
    destruct r as [|c' r'].
    + exfalso. apply (Hcr []). reflexivity.
    + cbn [app]. rewrite !universal_nl_cr_cons.
      destruct (Ascii.eqb c' NL) eqn:En; cbn [app]; f_equal.
      * apply IH; [simpl; lia|].
        intros l0 H. apply (Hcr (CR :: c' :: l0)). rewrite H. reflexivity.
      * change (c' :: r' ++ l2) with ((c' :: r') ++ l2).
        apply IH; [simpl; lia|].
        intros l0 H. apply (Hcr (CR :: l0)). rewrite H. reflexivity.
  - cbn [app]. rewrite !universal_nl_other by exact Ec. cbn [app]. f_equal.
    apply IH; [simpl; lia|].
    intros l0 H. apply (Hcr (c :: l0)). rewrite H. reflexivity.
Qed.

Lemma universal_nl_plain (l : list ascii) :
  ~ In NL l -> ~ In CR l -> universal_nl l = l.
Proof.
  induction l as [|c l IH]; intros H1 H2; [reflexivity|].
  destruct (Ascii.eqb c CR) eqn:E.
  - apply Ascii.eqb_eq in E. subst. exfalso. apply H2. left. reflexivity.
  - rewrite universal_nl_other by exact E.
    rewrite IH; [reflexivity| |]; intros H; [apply H1|apply H2]; right; exact H.
Qed.

(** A text ending in a line break still ends in one after newline
    translation. *)
Lemma universal_nl_ends (l : list ascii) (c : ascii) :
  c = NL \/ c = CR -> exists u, universal_nl (l ++ [c]) = u ++ [NL].
Proof.
  intros Hc.
  induction l as [l IH] using (induction_ltof1 _ (@length _)); unfold ltof in IH.
  destruct l as [|a r].
  - destruct Hc as [-> | ->]; exists []; reflexivity.
  - destruct (Ascii.eqb a CR) eqn:Ea.
    + apply Ascii.eqb_eq in Ea. subst a.
      destruct r as [|b r'].
      * destruct Hc as [-> | ->]; [exists [];reflexivity|exists [NL]; reflexivity].
      * cbn [app]. rewrite universal_nl_cr_cons. destruct (Ascii.eqb b NL) eqn:Eb.
        -- destruct (IH r' ltac:(simpl; lia)) as [u Hu]. rewrite Hu.
           exists (NL :: u). reflexivity.
        -- destruct (IH (b :: r') ltac:(simpl; lia)) as [u Hu].
           change (b :: r' ++ [c]) with ((b :: r') ++ [c]). rewrite Hu.
           exists (NL :: u). reflexivity.
    + cbn [app]. rewrite universal_nl_other by exact Ea.
      destruct (IH r ltac:(simpl; lia)) as [u Hu]. rewrite Hu.
      exists (a :: u). reflexivity.
Qed.

Lemma split_nl_app (l1 l2 : list ascii) (cur : list ascii) :
  split_nl (l1 ++ NL :: l2) cur = split_nl (l1 ++ [NL]) cur ++ split_nl l2 [].
Proof.
  revert cur. induction l1 as [|c r IH]; intros cur; simpl.
  - reflexivity.
  - destruct (Ascii.eqb c "010"%char); rewrite IH; reflexivity.
Qed.

Lemma split_nl_line (d cur : list ascii) :
  ~ In NL d -> split_nl (d ++ [NL]) cur = [rev cur ++ d].
Proof.
  revert cur. induction d as [|c d IH]; intros cur Hd; simpl.
  - rewrite app_nil_r. reflexivity.
  - destruct (Ascii.eqb c "010"%char) eqn:E.
    + apply Ascii.eqb_eq in E. subst. exfalso. apply Hd. left. reflexivity.
    + rewrite IH by (intros H; apply Hd; right; exact H). simpl.
      rewrite <- ?app_assoc. reflexivity.
Qed.

Lemma contains_single (c : ascii) (s : string) :
  PyStr.contains (String c EmptyString) s = false -> ~ In c (list_ascii_of_string s).
Proof.
  induction s as [|a s IH]; simpl; [auto|].
  intros H. apply orb_false_iff in H as [H1 H2].
  intros [Ha|Hin]; [|exact (IH H2 Hin)].
  subst. rewrite Ascii.eqb_refl in H1. discriminate.
Qed.

Lemma newline_free_chars (d : string) :
  newline_free d = true ->
  ~ In NL (list_ascii_of_string d) /\ ~ In CR (list_ascii_of_string d).
Proof.
  unfold newline_free. intros H. apply andb_prop in H as [H1 H2].
  apply negb_true_iff in H1, H2. split; apply contains_single; assumption.
Qed.

Lemma string_of_list_ascii_of_string' (s : string) :
  string_of_list_ascii (list_ascii_of_string s) = s.
Proof. apply string_of_list_ascii_of_string. Qed.

Lemma line_terminated_shape (t : string) :
  line_terminated t = true ->
  list_ascii_of_string t = [] \/ exists l, list_ascii_of_string t = l ++ [NL].
Proof.
  unfold line_terminated. intros H.
  destruct (rev (list_ascii_of_string t)) as [|c r] eqn:E.
  - left. apply (f_equal (@rev ascii)) in E. rewrite rev_involutive in E. exact E.
  - right. apply Ascii.eqb_eq in H. subst c. exists (rev r).
    apply (f_equal (@rev ascii)) in E. rewrite rev_involutive in E. exact E.
Qed.

(** Appending [d ++ "\n"] to a line-terminated log adds the line [d]. *)
Lemma lines_of_append (t d : string) :
  line_terminated t = true -> newline_free d = true ->
  lines_of (t ++ (d ++ String NL EmptyString))%string = lines_of t ++ [d].
Proof.
  intros Ht Hd. destruct (newline_free_chars d Hd) as [Hn Hr].
  unfold lines_of. rewrite !list_ascii_app. simpl.
  rewrite universal_nl_app.
  2:{ intros l0 Hl. destruct (line_terminated_shape t Ht) as [E|[l E]]; rewrite E in Hl.
      - destruct l0; discriminate.
      - apply app_inj_tail in Hl as [_ Hc]. discriminate. }
  rewrite universal_nl_app.
  2:{ intros l0 Hl. apply Hr. rewrite Hl. apply in_or_app. right. left. reflexivity. }
  rewrite (universal_nl_plain (list_ascii_of_string d)) by assumption.
  change (universal_nl [NL]) with [NL].
  destruct (line_terminated_shape t Ht) as [E|[l E]]; rewrite E.
  - simpl. rewrite split_nl_line by exact Hn. simpl.
    rewrite string_of_list_ascii_of_string'. reflexivity.
  - destruct (universal_nl_ends l NL (or_introl eq_refl)) as [u Hu]. rewrite Hu.
    rewrite <- app_assoc, <- app_comm_cons, app_nil_l. rewrite split_nl_app.
    rewrite (split_nl_line (list_ascii_of_string d)) by exact Hn. simpl.
    rewrite map_app. simpl. rewrite string_of_list_ascii_of_string'. reflexivity.
Qed.

Lemma lines_of_empty : lines_of EmptyString = [].
Proof. reflexivity. Qed.

End Lines.

(** ** Frames *)

Create HintDb frames.

Lemma keeps_same {A} p (c : M A) : (forall st, files (snd (c st)) = files st) -> keeps p c.
Proof. intros H st t Ht. rewrite H. exact Ht. Qed.

Lemma keeps_bind {A B} p (c : M A) (k : A -> M B) :
  keeps p c -> (forall a, keeps p (k a)) -> keeps p (bind c k).
Proof.
  intros Hc Hk st t Ht. unfold bind.
  specialize (Hc st t Ht).
  destruct (c st) as [[a|e] st'] eqn:E; simpl in *; [apply Hk|]; exact Hc.
Qed.

Lemma keeps_ret {A} p (a : A) : keeps p (ret a).
Proof. apply keeps_same. reflexivity. Qed.
Lemma keeps_raise {A} p e : keeps p (@raise A e).
Proof. apply keeps_same. reflexivity. Qed.
Lemma keeps_lift {A} p (r : res A) : keeps p (lift r).
Proof. apply keeps_same. reflexivity. Qed.
Lemma keeps_exists p q : keeps p (exists_file q).
Proof. apply keeps_same. reflexivity. Qed.
Lemma keeps_read p q : keeps p (read_file q).
Proof. apply keeps_same. reflexivity. Qed.
Lemma keeps_print p l : keeps p (print l).
Proof. apply keeps_same. reflexivity. Qed.
Lemma keeps_now rt p : keeps p (now_iso rt).
Proof. apply keeps_same. reflexivity. Qed.

Lemma keeps_write p q txt : q <> p -> keeps p (write_file q txt).
Proof. intros Hq st t Ht. simpl. rewrite lookup_insert_ne by congruence. exact Ht. Qed.

Lemma meta_ne_conv cid : _get_metadata_path cid <> _get_conversation_path cid.
Proof. intros H. apply (conv_ne_meta cid). symmetry. exact H. Qed.

Lemma keeps_migrate rt cid : keeps (_get_conversation_path cid) (_migrate_if_needed rt cid).
Proof. intros st t Ht. rewrite (migrate_present rt cid st t Ht). exact Ht. Qed.

#[local] Hint Resolve keeps_ret keeps_raise keeps_lift keeps_exists keeps_read
  keeps_print keeps_now keeps_write meta_ne_conv keeps_migrate : frames.

Ltac keeps_tac :=
  repeat first
    [ progress intros
    | progress cbv zeta
    | solve [eauto with frames]
    | apply keeps_bind
    | match goal with
      | |- keeps _ (if ?b then _ else _) => destruct b
      | |- keeps _ (match ?e with _ => _ end) => destruct e
      end ].

Lemma keeps_parse rt p cid : forall lines n, keeps p (parse_lines rt cid n lines).
Proof. induction lines as [|raw rest IH]; intros n; cbn [parse_lines]; keeps_tac. Qed.
#[local] Hint Resolve keeps_parse : frames.

Lemma keeps_read_messages rt cid start stop :
  keeps (_get_conversation_path cid) (read_messages rt cid start stop).
Proof. unfold read_messages. keeps_tac. Qed.
#[local] Hint Resolve keeps_read_messages : frames.

Lemma keeps_count rt cid : keeps (_get_conversation_path cid) (_count_messages rt cid).
Proof. unfold _count_messages. keeps_tac. Qed.
#[local] Hint Resolve keeps_count : frames.

Lemma keeps_save rt cid m : keeps (_get_conversation_path cid) (_save_metadata rt cid m).
Proof. unfold _save_metadata. keeps_tac. Qed.
#[local] Hint Resolve keeps_save : frames.

Lemma keeps_generate rt cid : keeps (_get_conversation_path cid) (_generate_metadata rt cid).
Proof. unfold _generate_metadata. keeps_tac. Qed.
#[local] Hint Resolve keeps_generate : frames.

Lemma keeps_get_metadata rt cid : keeps (_get_conversation_path cid) (get_metadata rt cid).
Proof. unfold get_metadata. keeps_tac. Qed.
#[local] Hint Resolve keeps_get_metadata : frames.

Lemma keeps_update rt cid sp :
  keeps (_get_conversation_path cid) (_update_metadata_on_append rt cid sp).
Proof. unfold _update_metadata_on_append. keeps_tac. Qed.

Lemma quiet_bind {A B} (c : M A) (k : A -> M B) :
  quiet c -> (forall a, quiet (k a)) -> quiet (bind c k).
Proof.
  intros Hc Hk st. unfold bind. specialize (Hc st).
  destruct (c st) as [[a|e] st'] eqn:E; simpl in *; [|exact Hc].
  destruct Hc as [H1 H2]. destruct (Hk a st') as [H3 H4]. split; congruence.
Qed.

Lemma quiet_parse rt cid : forall lines n, quiet (parse_lines rt cid n lines).
Proof.
  induction lines as [|raw rest IH]; intros n; cbn [parse_lines].
  - intros st. split; reflexivity.
  - destruct (String.eqb _ _); [apply IH|].
    assert (Hret : forall A (a : A), quiet (ret a)) by (intros ? ? st; split; reflexivity).
    assert (Hraise : forall A e, quiet (@raise A e)) by (intros ? ? st; split; reflexivity).
    assert (Hprint : forall l, quiet (print l)) by (intros ? st; split; reflexivity).
    destruct (loads rt _) as [m|[]];
      try (apply quiet_bind; [apply IH|intros; apply Hret]);
      try (apply quiet_bind; [apply Hprint|intros; apply IH]);
      apply Hraise.
Qed.

(** What the loop returns does not depend on the state it starts in. *)
Lemma parse_indep rt cid : forall lines n st st',
  fst (parse_lines rt cid n lines st) = fst (parse_lines rt cid n lines st').
Proof.
  induction lines as [|raw rest IH]; intros n st st'; cbn [parse_lines]; [reflexivity|].
  destruct (String.eqb _ _); [apply IH|].
  destruct (loads rt _) as [m|[]]; unfold bind, ret, raise, print; try reflexivity.
  - destruct (parse_lines rt cid (S n) rest st) as [r1 s1] eqn:E1.
    destruct (parse_lines rt cid (S n) rest st') as [r2 s2] eqn:E2.
    pose proof (IH (S n) st st') as H. rewrite E1, E2 in H. simpl in H. subst r2.
    destruct r1; reflexivity.
  - apply IH.
Qed.

Lemma parse_app rt cid : forall l1 l2 n st ms1 ms2,
  fst (parse_lines rt cid n l1 st) = Ok ms1 ->
  fst (parse_lines rt cid (n + length l1) l2 st) = Ok ms2 ->
  fst (parse_lines rt cid n (l1 ++ l2)%list st) = Ok (ms1 ++ ms2)%list.
Proof.
  induction l1 as [|raw rest IH]; intros l2 n st ms1 ms2 H1 H2.
  - simpl in H1. injection H1 as <-. rewrite Nat.add_0_r in H2. exact H2.
  - replace (n + length (raw :: rest))%nat with (S n + length rest)%nat in H2
      by (simpl; lia).
    cbn [parse_lines app] in *.
    destruct (String.eqb _ _); [apply IH; assumption|].
    destruct (loads rt _) as [m|[]]; unfold bind, ret, raise, print in *;
      try discriminate.
    + destruct (parse_lines rt cid (S n) rest st) as [[ms'|e] s'] eqn:E;
        simpl in H1; [|discriminate].
      injection H1 as <-.
      assert (Hr : fst (parse_lines rt cid (S n) (rest ++ l2)%list st) = Ok (ms' ++ ms2)%list).
      { apply IH; [rewrite E; reflexivity|exact H2]. }
      destruct (parse_lines rt cid (S n) (rest ++ l2)%list st) as [[r|e] s''];
        simpl in Hr; [|discriminate].
      injection Hr as ->. reflexivity.
    + apply IH; [exact H1|]. rewrite <- H2. apply parse_indep.
Qed.

Lemma codec_strip rt v : line_codec_ok rt v ->
  PyStr.strip (dumps rt v) = dumps rt v /\ String.eqb (dumps rt v) "" = false
  /\ loads rt (dumps rt v) = Ok v.
Proof.
  intros (H1 & H2 & H3 & H4). split; [exact H3|split; [|exact H1]].
  apply String.eqb_neq. exact H4.
Qed.

Lemma parse_single rt cid n v st : line_codec_ok rt v ->
  parse_lines rt cid n [dumps rt v] st = (Ok [v], st).
Proof.
  intros Hc. destruct (codec_strip rt v Hc) as (H1 & H2 & H3).
  cbn [parse_lines]. rewrite H1, H2, H3. reflexivity.
Qed.

(** ** Reading a log *)

Lemma read_present rt cid st t :
  files st !! _get_conversation_path cid = Some t ->
  read_messages rt cid None None st = parse_lines rt cid 1 (lines_of t) st.
Proof.
  intros Ht. unfold read_messages.
  rewrite (bind_ok _ _ st tt st) by (apply (migrate_present rt cid st t Ht)).
  unfold bind at 1, exists_file. rewrite Ht. simpl.
  unfold bind at 1, read_file. rewrite Ht. simpl.
  unfold bind. destruct (parse_lines rt cid 1 (lines_of t) st) as [[ms|e] s']; reflexivity.
Qed.

Lemma read_absent rt cid st :
  files st !! _get_conversation_path cid = None ->
  files st !! legacy_path cid = None ->
  read_messages rt cid None None st = (Ok [], st).
Proof.
  intros H1 H2. unfold read_messages.
  rewrite (bind_ok _ _ st tt st) by (apply (migrate_absent rt cid st H1 H2)).
  unfold bind at 1, exists_file. rewrite H1. reflexivity.
Qed.

Lemma lines_of_line rt v : line_codec_ok rt v ->
  lines_of (dumps rt v ++ String NL EmptyString) = [dumps rt v].
Proof.
  intros (_ & Hn & _). apply (lines_of_append "" (dumps rt v) eq_refl Hn).
Qed.

(** ** Appending *)

(** The steps of [append_message] before the metadata update: the log
    [t] (or no log and no legacy file, read as [t = ""]) gets the new
    record's line, the record's turn being one more than what a read
    returned before. *)
Lemma append_prefix rt cid sp ct md st t ms st_r :
  (files st !! _get_conversation_path cid = Some t \/
   (files st !! _get_conversation_path cid = None /\
    files st !! legacy_path cid = None /\ t = "")) ->
  read_messages rt cid None None st = (Ok ms, st_r) ->
  exists st3,
    append_message rt cid sp ct md st = _update_metadata_on_append rt cid sp st3
    /\ files st3 = <[_get_conversation_path cid :=
                     t ++ (dumps rt (message_record (Z.of_nat (length ms) + 1) sp ct
                                       (isoformat rt (ticks st)) (default [] md))
                           ++ String NL EmptyString)]> (files st)
    /\ ticks st3 = S (ticks st).
Proof.
  intros Hcase Hread.
  assert (Hmig : _migrate_if_needed rt cid st = (Ok tt, st)).
  { destruct Hcase as [H|(H1&H2&_)];
      [exact (migrate_present rt cid st t H)|exact (migrate_absent rt cid st H1 H2)]. }
  assert (Hq : files st_r = files st /\ ticks st_r = ticks st).
  { destruct Hcase as [H|(H1&H2&_)].
    - rewrite (read_present rt cid st t H) in Hread.
      pose proof (quiet_parse rt cid (lines_of t) 1 st) as Q. rewrite Hread in Q. exact Q.
    - rewrite (read_absent rt cid st H1 H2) in Hread. injection Hread as _ <-.
      split; reflexivity. }
  assert (Hdef : default "" (files st !! _get_conversation_path cid) = t).
  { destruct Hcase as [H|(H1&_&->)]; [rewrite H|rewrite H1]; reflexivity. }
  unfold append_message.
  rewrite (bind_ok _ _ st tt st Hmig).
  assert (Hc : _count_messages rt cid st = (Ok (Z.of_nat (length ms)), st_r)).
  { unfold _count_messages. rewrite (bind_ok _ _ _ _ _ Hread). reflexivity. }
  rewrite (bind_ok _ _ _ _ _ Hc).
  erewrite bind_ok by reflexivity.
  erewrite bind_ok by reflexivity.
  eexists. split; [reflexivity|].
  cbn -[lookup insert dumps message_record].
  destruct Hq as [-> ->]. rewrite Hdef. split; reflexivity.
Qed.

(** What a read before the append returned is what the log [t] parses
    to. *)
Lemma read_before rt cid st t ms st_r :
  (files st !! _get_conversation_path cid = Some t \/
   (files st !! _get_conversation_path cid = None /\
    files st !! legacy_path cid = None /\ t = "")) ->
  read_messages rt cid None None st = (Ok ms, st_r) ->
  fst (parse_lines rt cid 1 (lines_of t) st) = Ok ms.
Proof.
  intros Hcase Hread. destruct Hcase as [H|(H1&H2&->)].
  - rewrite (read_present rt cid st t H) in Hread. rewrite Hread. reflexivity.
  - rewrite (read_absent rt cid st H1 H2) in Hread. injection Hread as <- _.
    reflexivity.
Qed.

Lemma append_log rt cid sp ct md st t ms st_r :
  (files st !! _get_conversation_path cid = Some t \/
   (files st !! _get_conversation_path cid = None /\
    files st !! legacy_path cid = None /\ t = "")) ->
  read_messages rt cid None None st = (Ok ms, st_r) ->
  files (snd (append_message rt cid sp ct md st)) !! _get_conversation_path cid
    = Some (t ++ (dumps rt (message_record (Z.of_nat (length ms) + 1) sp ct
                              (isoformat rt (ticks st)) (default [] md))
                  ++ String NL EmptyString))
  /\ fst (parse_lines rt cid 1 (lines_of t) st) = Ok ms.
Proof.
  intros Hcase Hread. split; [|exact (read_before rt cid st t ms st_r Hcase Hread)].
  destruct (append_prefix rt cid sp ct md st t ms st_r Hcase Hread) as (st3 & -> & Hf & _).
  apply keeps_update. rewrite Hf. apply lookup_insert_eq.
Qed.

(** The round trip of an append when the log ends at a line boundary
    or is absent with no legacy file beside it. *)
Lemma append_then_read_plain (rt : runtime) (cid sp ct : string)
    (md : option (list (string * jval))) (st st_r : state) (ms : list jval)
    (Hlog : match files st !! _get_conversation_path cid with
            | Some t => line_terminated t = true
            | None => files st !! legacy_path cid = None
            end)
    (Hread : read_messages rt cid None None st = (Ok ms, st_r))
    (Hcodec : line_codec_ok rt
                (message_record (Z.of_nat (length ms) + 1) sp ct
                   (isoformat rt (ticks st)) (default [] md))) :
  fst (read_messages rt cid None None (snd (append_message rt cid sp ct md st)))
  = Ok (ms ++ [message_record (Z.of_nat (length ms) + 1) sp ct
                 (isoformat rt (ticks st)) (default [] md)])%list.
Proof.
  set (v := message_record _ _ _ _ _) in *.
  set (t := default "" (files st !! _get_conversation_path cid)).
  assert (Hcase : files st !! _get_conversation_path cid = Some t \/
                  (files st !! _get_conversation_path cid = None /\
                   files st !! legacy_path cid = None /\ t = "")).
  { subst t. destruct (files st !! _get_conversation_path cid); [left|right]; auto. }
  assert (Ht : line_terminated t = true).
  { subst t. destruct (files st !! _get_conversation_path cid); [exact Hlog|reflexivity]. }
  destruct (append_log rt cid sp ct md st t ms st_r Hcase Hread) as [Hf Hp].
  fold v in Hf.
  rewrite (read_present rt cid _ _ Hf).
  destruct Hcodec as (Hc1 & Hn & Hc3).
  rewrite (lines_of_append t (dumps rt v) Ht Hn).
  apply parse_app.
  - rewrite <- Hp. apply parse_indep.
  - rewrite parse_single; [reflexivity|]. split; [exact Hc1|split; [exact Hn|exact Hc3]].
Qed.

Ltac codec_ok :=
  split; [vm_compute; reflexivity|
  split; [vm_compute; reflexivity|
  split; [vm_compute; reflexivity|vm_compute; discriminate]]].

(** C1 fails on a log whose last line has no line break (a write cut
    short): the record is appended to that line, the merged line does
    not parse, and the read after the append returns nothing. *)
Lemma append_after_unterminated_line :
  let rt := mk_runtime 0 in
  let st := {| files := <["c.jsonl" := "garbage"]> ∅;
               ticks := 0; draws := 0; printed := [] |} in
  fst (read_messages rt "c" None None st) = Ok [] /\
  fst (read_messages rt "c" None None (snd (append_message rt "c" "alice" "hi" None st)))
  = Ok [].
Proof. vm_compute. split; reflexivity. Qed.

(** ** The metadata update on a one-record log *)

Lemma find_slot_empty h key :
  find_slot (empty_table 8) 7 h key = Some (Z.land (h mod 2 ^ 64) 7, false).
Proof.
  set (i := Z.land (h mod 2 ^ 64) 7).
  assert (Hi : 0 <= i < 8).
  { subst i. change 7 with (Z.ones 3). rewrite Z.land_ones by lia.
    apply Z.mod_pos_bound. lia. }
  unfold find_slot. change (length (empty_table 8) + 70)%nat with 78%nat. cbn [probe].
  fold i.
  replace (i + Z.of_nat LINEAR_PROBES <=? 7)%Z with false
    by (symmetry; apply Z.leb_gt; unfold LINEAR_PROBES; lia).
  cbn [scan]. unfold empty_table.
  rewrite lookup_replicate_2 by lia. reflexivity.
Qed.

Lemma participants_single rt turn sp ct ts md :
  exists ps, participants_of rt [message_record turn sp ct ts md] = Ok ps.
Proof.
  unfold participants_of. cbn [add_speakers].
  unfold message_record, getitem. cbn [assoc String.eqb Ascii.eqb Bool.eqb andb].
  unfold set_add. simpl py_hash. cbn [new_set table mask].
  rewrite find_slot_empty. cbn -[set_list].
  eexists. reflexivity.
Qed.

Lemma read_single rt cid v s :
  files s !! _get_conversation_path cid = Some (dumps rt v ++ String NL EmptyString) ->
  line_codec_ok rt v -> read_messages rt cid None None s = (Ok [v], s).
Proof.
  intros Hf Hc. rewrite (read_present rt cid s _ Hf), (lines_of_line rt v Hc).
  apply parse_single. exact Hc.
Qed.

Ltac run_step := erewrite bind_ok by reflexivity; cbv beta.

Lemma generate_single rt cid turn sp ct ts md s :
  files s !! _get_conversation_path cid
    = Some (dumps rt (message_record turn sp ct ts md) ++ String NL EmptyString) ->
  line_codec_ok rt (message_record turn sp ct ts md) ->
  exists ps s',
    _generate_metadata rt cid s
    = (Ok (JObj [("id", JStr cid); ("created_at", JStr ts); ("updated_at", JStr ts);
                 ("participants", JArr ps); ("message_count", JInt 1);
                 ("topic", JStr (PyStr.take 100 ct)); ("status", JStr "active")]), s')
    /\ files s' !! _get_conversation_path cid = files s !! _get_conversation_path cid.
Proof.
  intros Hf Hc.
  destruct (participants_single rt turn sp ct ts md) as [ps Hps].
  exists ps. unfold _generate_metadata.
  rewrite (bind_ok _ _ _ _ _ (read_single rt cid _ s Hf Hc)). cbv beta iota.
  rewrite (bind_ok _ _ s ps s) by (unfold lift; rewrite Hps; reflexivity). cbv beta.
  repeat run_step.
  eexists. split; [reflexivity|].
  cbn [files set_files]. rewrite lookup_insert_ne; [reflexivity|apply meta_ne_conv].
Qed.

Lemma update_single rt cid turn sp ct ts md speaker s :
  files s !! _get_conversation_path cid
    = Some (dumps rt (message_record turn sp ct ts md) ++ String NL EmptyString) ->
  files s !! _get_metadata_path cid = None ->
  line_codec_ok rt (message_record turn sp ct ts md) ->
  fst (_update_metadata_on_append rt cid speaker s) = Ok tt.
Proof.
  intros Hf Hm Hc.
  destruct (generate_single rt cid turn sp ct ts md s Hf Hc) as (ps & s' & Hg & Hf').
  unfold _update_metadata_on_append.
  assert (Hgm : get_metadata rt cid s
    = (Ok (JObj [("id", JStr cid); ("created_at", JStr ts); ("updated_at", JStr ts);
                 ("participants", JArr ps); ("message_count", JInt 1);
                 ("topic", JStr (PyStr.take 100 ct)); ("status", JStr "active")]), s')).
  { unfold get_metadata. rewrite (bind_ok _ _ s false s); [exact Hg|].
    unfold exists_file. rewrite Hm. reflexivity. }
  rewrite (bind_ok _ _ _ _ _ Hgm). cbv beta. run_step. run_step.
  erewrite (bind_ok (_count_messages rt cid)).
  2:{ unfold _count_messages. erewrite bind_ok; [reflexivity|].
      apply read_single; [|exact Hc]. cbn [files]. rewrite Hf'. exact Hf. }
  cbv beta. repeat run_step.
  destruct (existsb _ _); repeat run_step; reflexivity.
Qed.

(** [append_message] on an identifier with no log (or an empty one) and
    no metadata file: it succeeds and the log holds the record, turn 1. *)
Lemma append_fresh rt cid sp ct md st :
  (files st !! _get_conversation_path cid = None /\ files st !! legacy_path cid = None
   \/ files st !! _get_conversation_path cid = Some "") ->
  files st !! _get_metadata_path cid = None ->
  line_codec_ok rt (message_record 1 sp ct (isoformat rt (ticks st)) (default [] md)) ->
  fst (append_message rt cid sp ct md st) = Ok tt
  /\ files (snd (append_message rt cid sp ct md st)) !! _get_conversation_path cid
     = Some (dumps rt (message_record 1 sp ct (isoformat rt (ticks st)) (default [] md))
             ++ String NL EmptyString).
Proof.
  intros Hcase Hm Hc.
  assert (Hcase' : files st !! _get_conversation_path cid = Some "" \/
                   (files st !! _get_conversation_path cid = None /\
                    files st !! legacy_path cid = None /\ "" = "")).
  { destruct Hcase as [[H1 H2]|H]; [right; auto|left; exact H]. }
  assert (Hr : read_messages rt cid None None st = (Ok [], st)).
  { destruct Hcase as [[H1 H2]|H]; [exact (read_absent rt cid st H1 H2)|].
    rewrite (read_present rt cid st _ H). reflexivity. }
  destruct (append_prefix rt cid sp ct md st "" [] st Hcase' Hr) as (st3 & Ha & Hf & _).
  rewrite Ha. split.
  - eapply update_single; [| |exact Hc].
    + rewrite Hf. apply lookup_insert_eq.
    + rewrite Hf. rewrite lookup_insert_ne by apply conv_ne_meta. exact Hm.
  - apply keeps_update. rewrite Hf. apply lookup_insert_eq.
Qed.

(** C10 (amended): [append_message] needs no prior [create_conversation]:
    on an identifier with no log, legacy file or metadata file, it
    succeeds and creates the log named by the sanitized identifier holding
    the record with turn 1. All identifiers that sanitize to the empty
    string share the log [".jsonl"]; [create_conversation] answers the
    sentinel [""] for the non-empty ones among them, while the empty
    identifier itself is treated as absent (a generated identifier). *)
Theorem append_without_create (rt : runtime) (cid sp ct : string)
    (md : option (list (string * jval))) (st : state)
    (Hconv : files st !! _get_conversation_path cid = None)
    (Hlegacy : files st !! legacy_path cid = None)
    (Hmeta : files st !! _get_metadata_path cid = None)
    (Hcodec : line_codec_ok rt
                (message_record 1 sp ct (isoformat rt (ticks st)) (default [] md))) :
  fst (append_message rt cid sp ct md st) = Ok tt
  /\ files (snd (append_message rt cid sp ct md st)) !! (_sanitize_id cid ++ ".jsonl")
     = Some (dumps rt (message_record 1 sp ct (isoformat rt (ticks st)) (default [] md))
             ++ String NL EmptyString)
  /\ (_sanitize_id cid = "" ->
      forall cid', _sanitize_id cid' = "" ->
      _get_conversation_path cid' = ".jsonl" /\ _get_conversation_path cid = ".jsonl")
  /\ (forall cid', _sanitize_id cid' = "" ->
      (cid' <> "" -> forall im md' host st',
         create_conversation rt (Some cid') im md' host st' = (Ok "", st'))
      /\ (cid' = "" -> forall im md' host,
         create_conversation rt (Some cid') im md' host
         = create_conversation rt None im md' host)).
Proof.
  destruct (append_fresh rt cid sp ct md st (or_introl (conj Hconv Hlegacy)) Hmeta Hcodec)
    as [H1 H2].
  split; [exact H1|split; [exact H2|split]].
  - intros He cid' He'. unfold _get_conversation_path. rewrite He, He'. split; reflexivity.
  - intros cid' He'. split.
    + intros Hne im md' host st'. unfold create_conversation.
      rewrite (proj2 (String.eqb_neq cid' "") Hne).
      run_step. cbv zeta. rewrite He'. reflexivity.
    + intros -> im md' host. reflexivity.
Qed.

Lemma append_without_create_witness :
  let rt := mk_runtime 0 in
  fst (append_message rt "a/b" "alice" "hi" None empty_state) = Ok tt
  /\ files (snd (append_message rt "a/b" "alice" "hi" None empty_state)) !! ".jsonl"
     = Some (dumps rt (message_record 1 "alice" "hi" (isoformat rt 0) [])
             ++ String NL EmptyString)
  /\ _get_conversation_path "../x" = ".jsonl" /\ _get_conversation_path "a/b" = ".jsonl"
  /\ create_conversation rt (Some "../x") "hi" None "" empty_state = (Ok "", empty_state).
Proof.
  intros rt.
  destruct (append_without_create rt "a/b" "alice" "hi" None empty_state
              ltac:(vm_compute; reflexivity) ltac:(vm_compute; reflexivity)
              ltac:(vm_compute; reflexivity) ltac:(codec_ok)) as (H1 & H2 & H3 & H6).
  destruct (H3 ltac:(vm_compute; reflexivity) "../x" ltac:(vm_compute; reflexivity))
    as [H4 H5].
  destruct (H6 "../x" ltac:(vm_compute; reflexivity)) as [H7 _].
  exact (conj H1 (conj H2 (conj H4 (conj H5
           (H7 ltac:(discriminate) "hi" None "" empty_state))))).
Defined.

(** C10 fails on the empty identifier: it sanitizes to the empty string,
    yet [create_conversation] does not reject it with the sentinel. *)
Lemma empty_id_not_rejected :
  _sanitize_id "" = ""
  /\ fst (create_conversation (mk_runtime 0) (Some "") "" None "" empty_state) <> Ok "".
Proof. vm_compute. split; [reflexivity|discriminate]. Qed.

(** ** Creating a conversation *)

Lemma exists_absent cid st :
  files st !! _get_conversation_path cid = None ->
  files st !! legacy_path cid = None ->
  conversation_exists cid st = (Ok false, st).
Proof.
  intros H1 H2. unfold conversation_exists, bind, exists_file.
  rewrite H1. simpl. rewrite H2. reflexivity.
Qed.

(** C3 (amended): a non-empty identifier with a path separator or [..],
    or with no safe character, gets the sentinel [""] and nothing is
    created; a non-empty identifier made of safe characters only, new to
    the directory, is returned exactly; the empty identifier is not
    rejected but treated as absent (a generated identifier). *)
Theorem create_sanitizes_identifier (rt : runtime) (initial_message host_name : string)
    (md : option (list (string * jval))) (st : state) :
  (forall cid, cid <> "" ->
     PyStr.contains "/" cid || PyStr.contains "\" cid || PyStr.contains ".." cid
     || String.eqb (PyStr.filter_str PyStr.safe_char cid) "" = true ->
     create_conversation rt (Some cid) initial_message md host_name st = (Ok "", st))
  /\ (forall cid, cid <> "" -> all_chars PyStr.safe_char cid = true ->
      files st !! _get_conversation_path cid = None ->
      files st !! legacy_path cid = None ->
      files st !! _get_metadata_path cid = None ->
      (initial_message = "" \/
       line_codec_ok rt (message_record 1
                           (if String.eqb host_name "" then "host" else "host_" ++ host_name)
                           initial_message (isoformat rt (ticks st)) [])) ->
      fst (create_conversation rt (Some cid) initial_message md host_name st) = Ok cid)
  /\ create_conversation rt (Some "") initial_message md host_name
     = create_conversation rt None initial_message md host_name.
Proof.
  split; [|split].
  - intros cid Hne Hrej. unfold create_conversation.
    rewrite (proj2 (String.eqb_neq cid "") Hne).
    run_step. cbv zeta. rewrite (sanitize_rejects cid Hrej). reflexivity.
  - intros cid Hne Hs Hc Hl Hm Hinit. unfold create_conversation.
    rewrite (proj2 (String.eqb_neq cid "") Hne).
    run_step. cbv zeta. rewrite (sanitize_of_safe cid Hs Hne).
    rewrite (proj2 (String.eqb_neq cid "") Hne).
    rewrite (bind_ok _ _ _ _ _ (exists_absent cid st Hc Hl)). cbv beta iota.
    run_step.
    destruct (String.eqb initial_message "") eqn:Ei.
    + run_step. run_step. run_step.
      destruct (dict_truthy md); repeat run_step; reflexivity.
    + destruct Hinit as [Hinit|Hinit]; [subst; discriminate|].
      set (sp := if String.eqb host_name "" then "host" else "host_" ++ host_name) in *.
      set (st1 := set_files _ st).
      assert (Hst1 : files st1 !! _get_conversation_path cid = Some "").
      { subst st1. cbn [files set_files]. rewrite lookup_insert_eq, Hc. reflexivity. }
      assert (Hm1 : files st1 !! _get_metadata_path cid = None).
      { subst st1. cbn [files set_files]. rewrite lookup_insert_ne by apply conv_ne_meta.
        exact Hm. }
      destruct (append_fresh rt cid sp initial_message (Some []) st1
                  (or_intror Hst1) Hm1 Hinit) as [Hok _].
      destruct (append_message rt cid sp initial_message (Some []) st1) as [r st2] eqn:E.
      simpl in Hok. subst r.
      rewrite (bind_ok _ _ _ _ _ E). cbv beta.
      run_step. run_step.
      destruct (dict_truthy md); repeat run_step; reflexivity.
  - reflexivity.
Qed.

Lemma create_sanitizes_identifier_witness :
  create_conversation (mk_runtime 0) (Some "../../etc/passwd") "hello" None "" empty_state
  = (Ok "", empty_state)
  /\ fst (create_conversation (mk_runtime 0) (Some "conv_1") "hello" None "" empty_state)
     = Ok "conv_1".
Proof.
  destruct (create_sanitizes_identifier (mk_runtime 0) "hello" "" None empty_state)
    as (H1 & H2 & _).
  split.
  - apply H1; [discriminate|vm_compute; reflexivity].
  - apply H2; [discriminate|vm_compute; reflexivity|vm_compute; reflexivity
              |vm_compute; reflexivity|vm_compute; reflexivity|right; codec_ok].
Defined.

(** C3 fails on the empty identifier: it keeps no safe character, yet
    [create_conversation] does not return the sentinel but a generated
    identifier. *)
Lemma create_empty_id_generates :
  fst (create_conversation (mk_runtime 0) (Some "") "" None "" empty_state)
  = Ok "conversation_20261017_120000_0_1000".
Proof. vm_compute. reflexivity. Qed.

(** ** Participants and corrupted lines *)

(** C5 (failing input): with no metadata cache, the participants of a log
    whose speakers are alice then bob come from [list(set(...))], in the
    order of the set's hash table: with one string-hash seed bob comes
    first, with another alice does; neither follows the log, and two
    processes reading the same log may disagree. *)
Theorem participants_follow_hash_seed :
  let log := (dumps (mk_runtime 0) (message_record 1 "alice" "hi" "t0" [])
              ++ String NL EmptyString
              ++ dumps (mk_runtime 0) (message_record 2 "bob" "yo" "t1" [])
              ++ String NL EmptyString)%string in
  let st := {| files := <["c.jsonl" := log]> ∅; ticks := 0; draws := 0; printed := [] |} in
  (match fst (get_metadata (mk_runtime 0) "c" st) with
   | Ok m => getitem m "participants" | Err e => Err e end)
  = Ok (JArr [JStr "bob"; JStr "alice"])
  /\ (match fst (get_metadata (mk_runtime 2) "c" st) with
      | Ok m => getitem m "participants" | Err e => Err e end)
     = Ok (JArr [JStr "alice"; JStr "bob"]).
Proof. vm_compute. split; reflexivity. Qed.

(** C7: an identifier with no log and no legacy file reads as []; but a
    line on which [json.loads] raises a [ValueError] that is not a
    [JSONDecodeError] (an integer of more than 4300 digits) is not
    skipped: the whole read fails, losing the valid record before it. *)
Theorem read_fails_on_int_limit_line :
  (forall rt cid st,
     files st !! _get_conversation_path cid = None ->
     files st !! legacy_path cid = None ->
     read_messages rt cid None None st = (Ok [], st))
  /\ let log := (dumps (mk_runtime 0) (message_record 1 "alice" "hi" "t0" [])
                 ++ String NL EmptyString ++ "not json" ++ String NL EmptyString
                 ++ string_of_list_ascii (repeat "1"%char 4301)
                 ++ String NL EmptyString)%string in
     let st := {| files := <["c.jsonl" := log]> ∅; ticks := 0; draws := 0;
                  printed := [] |} in
     match fst (read_messages (mk_runtime 0) "c" None None st) with
     | Err (ValueError _) => True
     | _ => False
     end.
Proof.
  split.
  - intros rt cid st H1 H2. exact (read_absent rt cid st H1 H2).
  - vm_compute. exact I.
Qed.
End ConversationFacts.

Module ContextSelectorExtras.
Import ContextSelector.

Section Extras.
Context {A : Type}.
Variable field_len : A -> string -> res Z.

(** *** Which estimates are defined *)

Lemma Forall_of_sublist (P : A -> Prop) (l1 l2 : list A) :
  sublist l1 l2 -> Forall P l2 -> Forall P l1.
Proof.
  induction 1 as [|x l1 l2 _ IH|x l1 l2 _ IH]; intros H;
    [constructor|inversion H; subst; constructor; auto|inversion H; subst; auto].
Qed.

Lemma In_of_sublist (x : A) (l1 l2 : list A) :
  sublist l1 l2 -> In x l1 -> In x l2.
Proof.
  induction 1 as [|y l1 l2 _ IH|y l1 l2 _ IH]; simpl; [tauto|tauto|].
  intros H; right; auto.
Qed.

Lemma sum_chars_ok (X : list A) :
  Forall (sized field_len) X ->
  forall t0, exists t, sum_chars field_len t0 X = Ok t.
Proof.
  induction 1 as [|m X [n Hn] _ IH]; intros t0; simpl; [eauto|].
  rewrite Hn. apply IH.
Qed.

Lemma estimate_ok (X : list A) :
  Forall (sized field_len) X -> exists t, estimate_tokens field_len X = Ok t.
Proof.
  intros H. destruct X as [|m X']; [exists 0; reflexivity|].
  unfold estimate_tokens. destruct (sum_chars_ok _ H 0) as [t Ht].
  rewrite Ht. eauto.
Qed.

Lemma sum_chars_first_err (pre post : list A) (m : A) (e : py_exn) :
  Forall (sized field_len) pre -> msg_chars field_len m = Err e ->
  forall t0, sum_chars field_len t0 (pre ++ m :: post) = Err e.
Proof.
  intros Hpre Hm. induction Hpre as [|p pre [n Hn] _ IH]; intros t0; simpl.
  - rewrite Hm. reflexivity.
  - rewrite Hn. apply IH.
Qed.

Lemma sum_chars_err_in (X : list A) t0 e :
  sum_chars field_len t0 X = Err e ->
  exists m, In m X /\ msg_chars field_len m = Err e.
Proof.
  revert t0. induction X as [|m X IH]; intros t0; simpl; [discriminate|].
  destruct (msg_chars field_len m) as [c|e'] eqn:Em.
  - intros H. destruct (IH _ H) as (m' & Hin & He). eauto.
  - intros [= <-]. eauto.
Qed.

Lemma estimate_err_in (X : list A) e :
  estimate_tokens field_len X = Err e ->
  exists m, In m X /\ msg_chars field_len m = Err e.
Proof.
  unfold estimate_tokens. destruct X as [|m X']; [discriminate|].
  destruct (sum_chars field_len 0 (m :: X')) as [t|e'] eqn:E; [discriminate|].
  intros [= <-]. exact (sum_chars_err_in _ _ _ E).
Qed.

Lemma first_fit_err mk mt i e :
  first_fit field_len mk mt i = Err e ->
  exists j, (1 <= j <= i)%nat /\ estimate_tokens field_len (mk j) = Err e.
Proof.
  induction i as [|i IH]; simpl; [discriminate|].
  destruct (estimate_tokens field_len (mk (S i))) as [t|e'] eqn:Et.
  - destruct (t <=? mt); [discriminate|].
    intros H. destruct (IH H) as (j & Hj & He). exists j. split; [lia|exact He].
  - intros [= <-]. exists (S i). split; [lia|exact Et].
Qed.

Lemma In_drop (x : A) (k : nat) (X : list A) : In x (drop k X) -> In x X.
Proof.
  revert X. induction k as [|k IH]; intros [|y X]; simpl; auto.
Qed.

(** *** The search loops *)

Lemma first_fit_some mk mt i c :
  first_fit field_len mk mt i = Ok (Some c) ->
  exists j, (1 <= j <= i)%nat /\ c = mk j /\
    (exists t, estimate_tokens field_len (mk j) = Ok t /\ t <= mt) /\
    forall j', (j < j' <= i)%nat ->
      exists t, estimate_tokens field_len (mk j') = Ok t /\ mt < t.
Proof.
  induction i as [|i IH]; simpl; [discriminate|].
  destruct (estimate_tokens field_len (mk (S i))) as [t|e] eqn:Et; [|discriminate].
  destruct (t <=? mt) eqn:E.
  - intros [= <-]. apply Z.leb_le in E.
    exists (S i). split; [lia|]. split; [reflexivity|]. split; [eauto|].
    intros; lia.
  - intros H. apply Z.leb_gt in E.
    destruct (IH H) as (j & Hj & -> & Hfit & Hbig).
    exists j. split; [lia|]. split; [reflexivity|]. split; [exact Hfit|].
    intros j' Hj'. destruct (decide (j' = S i)) as [->|Hne]; [eauto|].
    apply Hbig; lia.
Qed.

Lemma first_fit_none mk mt i :
  first_fit field_len mk mt i = Ok None ->
  forall j, (1 <= j <= i)%nat ->
    exists t, estimate_tokens field_len (mk j) = Ok t /\ mt < t.
Proof.
  induction i as [|i IH]; simpl; [intros _ j Hj; lia|].
  destruct (estimate_tokens field_len (mk (S i))) as [t|e] eqn:Et; [|discriminate].
  destruct (t <=? mt) eqn:E; [discriminate|].
  intros H j Hj. apply Z.leb_gt in E.
  destruct (decide (j = S i)) as [->|Hne]; [eauto|].
  apply IH; [exact H|lia].
Qed.

Lemma first_fit_ok mk mt i :
  (forall j, (1 <= j <= i)%nat -> Forall (sized field_len) (mk j)) ->
  exists o, first_fit field_len mk mt i = Ok o.
Proof.
  induction i as [|i IH]; simpl; [eauto|]. intros H.
  destruct (estimate_ok (mk (S i)) (H (S i) ltac:(lia))) as [t ->].
  destruct (t <=? mt); [eauto|]. apply IH. intros j Hj. apply H. lia.
Qed.

Lemma longest_fitting_suffix (msgs : list A) mt :
  Forall (sized field_len) msgs ->
  exists k, (k <= length msgs)%nat /\
    suffix_or_empty field_len msgs mt = Ok (drop k msgs) /\
    (forall j, (j < k)%nat ->
       exists t, estimate_tokens field_len (drop j msgs) = Ok t /\ mt < t) /\
    ((k < length msgs)%nat ->
       exists t, estimate_tokens field_len (drop k msgs) = Ok t /\ t <= mt).
Proof.
  intros Hs. unfold suffix_or_empty.
  destruct (first_fit_ok (fun i => last_n i msgs) mt (length msgs)) as [o Eo].
  { intros j _. unfold last_n. apply Forall_drop. exact Hs. }
  rewrite Eo. destruct o as [c|].
  - destruct (first_fit_some _ _ _ _ Eo) as (j & Hj & -> & Hfit & Hbig).
    exists (length msgs - j)%nat. unfold last_n in *.
    split; [lia|]. split; [reflexivity|]. split; [|intros; exact Hfit].
    intros j0 Hj0.
    replace j0 with (length msgs - (length msgs - j0))%nat by lia.
    apply Hbig; lia.
  - exists (length msgs). split; [lia|].
    split; [rewrite drop_ge; [reflexivity|lia]|]. split; [|lia].
    intros j0 Hj0. pose proof (first_fit_none _ _ _ Eo) as Hn.
    unfold last_n in Hn.
    replace j0 with (length msgs - (length msgs - j0))%nat by lia.
    apply Hn; lia.
Qed.

Lemma first_with_suffix (m0 : A) (rest : list A) mt c :
  first_fit field_len (fun i => [m0] ++ last_n i rest) mt (length rest) = Ok (Some c) ->
  exists k, (k < length rest)%nat /\ c = m0 :: drop k rest /\
    (exists t, estimate_tokens field_len c = Ok t /\ t <= mt) /\
    forall j, (j < k)%nat ->
      exists t, estimate_tokens field_len (m0 :: drop j rest) = Ok t /\ mt < t.
Proof.
  intros E.
  destruct (first_fit_some _ _ _ _ E) as (j & Hj & -> & Hfit & Hbig).
  exists (length rest - j)%nat. unfold last_n in *.
  split; [lia|]. split; [reflexivity|]. split; [exact Hfit|].
  intros j0 Hj0.
  replace j0 with (length rest - (length rest - j0))%nat by lia.
  apply (Hbig (length rest - j0)%nat); lia.
Qed.

Lemma first_with_suffix_none (m0 : A) (rest : list A) mt :
  first_fit field_len (fun i => [m0] ++ last_n i rest) mt (length rest) = Ok None ->
  forall j, (j < length rest)%nat ->
    exists t, estimate_tokens field_len (m0 :: drop j rest) = Ok t /\ mt < t.
Proof.
  intros E j Hj. pose proof (first_fit_none _ _ _ E) as Hn.
  unfold last_n in Hn.
  replace j with (length rest - (length rest - j))%nat by lia.
  apply (Hn (length rest - j)%nat); lia.
Qed.

(** *** [_apply_token_limit] *)

Lemma limit_suffix_spec (msgs : list A) (mt : Z) (mode : string)
  (Hsized : Forall (sized field_len) msgs)
  (Hmode : mode <> "smart" \/ (length msgs <= 1)%nat) :
  exists k, (k <= length msgs)%nat /\
    _apply_token_limit field_len msgs mt mode = Ok (drop k msgs) /\
    (forall j, (j < k)%nat ->
       exists t, estimate_tokens field_len (drop j msgs) = Ok t /\ mt < t) /\
    ((k < length msgs)%nat ->
       exists t, estimate_tokens field_len (drop k msgs) = Ok t /\ t <= mt).
Proof.
  unfold _apply_token_limit.
  destruct msgs as [|m0 rest] eqn:Em.
  - exists 0%nat. split; [simpl; lia|]. split; [reflexivity|].
    split; intros; simpl in *; lia.
  - destruct (estimate_ok _ Hsized) as [t Et]. rewrite Et.
    destruct (t <=? mt) eqn:Efit.
    + exists 0%nat. apply Z.leb_le in Efit.
      split; [lia|]. split; [reflexivity|]. split; intros; [lia|eauto].
    + replace (String.eqb mode "smart" && (1 <? length (m0 :: rest))%nat) with false.
      2:{ destruct Hmode as [Hm|Hl].
          - apply String.eqb_neq in Hm. rewrite Hm. reflexivity.
          - replace (1 <? length (m0 :: rest))%nat with false
              by (symmetry; apply Nat.ltb_ge; lia).
            destruct (String.eqb mode "smart"); reflexivity. }
      apply longest_fitting_suffix. exact Hsized.
Qed.

(** [_apply_token_limit] in every mode other than ["smart"] (and in
    ["smart"] mode on at most one message), on messages whose
    ["content"] and ["speaker"] all have a length, keeps the longest
    suffix [messages[-i:]] whose estimate fits the budget: every longer
    suffix is over the budget, and the result is [[]] only when no
    non-empty suffix fits. *)
Theorem token_limit_longest_suffix (msgs : list A) (mt : Z) (mode : string)
  (Hsized : Forall (sized field_len) msgs)
  (Hmode : mode <> "smart" \/ (length msgs <= 1)%nat) :
  exists k, (k <= length msgs)%nat /\
    _apply_token_limit field_len msgs mt mode = Ok (drop k msgs) /\
    (forall j, (j < k)%nat ->
       exists t, estimate_tokens field_len (drop j msgs) = Ok t /\ mt < t) /\
    ((k < length msgs)%nat ->
       exists t, estimate_tokens field_len (drop k msgs) = Ok t /\ t <= mt).
Proof. exact (limit_suffix_spec msgs mt mode Hsized Hmode). Qed.

Lemma limit_smart_spec (m0 : A) (rest : list A) (mt : Z)
  (Hsized : Forall (sized field_len) (m0 :: rest))
  (Hrest : rest <> []) :
  let r := _apply_token_limit field_len (m0 :: rest) mt "smart" in
  (exists k, (k < length rest)%nat /\ r = Ok (m0 :: drop k rest) /\
     (exists t, estimate_tokens field_len (m0 :: drop k rest) = Ok t /\ t <= mt) /\
     forall j, (j < k)%nat ->
       exists t, estimate_tokens field_len (m0 :: drop j rest) = Ok t /\ mt < t)
  \/ ((forall j, (j < length rest)%nat ->
         exists t, estimate_tokens field_len (m0 :: drop j rest) = Ok t /\ mt < t) /\
      exists k, (k <= length (m0 :: rest))%nat /\ r = Ok (drop k (m0 :: rest)) /\
        (forall j, (j < k)%nat ->
           exists t, estimate_tokens field_len (drop j (m0 :: rest)) = Ok t /\ mt < t) /\
        ((k < length (m0 :: rest))%nat ->
           exists t, estimate_tokens field_len (drop k (m0 :: rest)) = Ok t /\ t <= mt)).
Proof.
  intros r. subst r. unfold _apply_token_limit.
  destruct (estimate_ok _ Hsized) as [t Et]. rewrite Et.
  destruct (t <=? mt) eqn:Efit.
  - left. exists 0%nat. apply Z.leb_le in Efit.
    destruct rest; [congruence|].
    split; [simpl; lia|]. split; [reflexivity|]. split; [eauto|].
    intros; lia.
  - replace (String.eqb "smart" "smart" && (1 <? length (m0 :: rest))%nat)
      with true.
    2:{ destruct rest; [congruence|]. reflexivity. }
    assert (Hrs : Forall (sized field_len) rest) by (inversion Hsized; assumption).
    destruct (first_fit_ok (fun i => [m0] ++ last_n i rest) mt (length rest))
      as [o Eo].
    { intros j _. inversion Hsized; subst. constructor; [assumption|].
      unfold last_n. apply Forall_drop. assumption. }
    rewrite Eo. destruct o as [c|].
    + left. destruct (first_with_suffix _ _ _ _ Eo) as (k & Hk & -> & Hfit & Hbig).
      exists k. split; [exact Hk|]. split; [reflexivity|]. split; [exact Hfit|exact Hbig].
    + right. split; [exact (first_with_suffix_none _ _ _ Eo)|].
      apply longest_fitting_suffix. exact Hsized.
Qed.

(** [_apply_token_limit] in ["smart"] mode on at least two messages whose
    ["content"] and ["speaker"] all have a length: either the result is
    [messages[0]] followed by the longest suffix of the rest with which
    it fits the budget, or no such combination fits and the result is
    the longest fitting suffix of all the messages ([[]] when none
    fits). *)
Theorem smart_token_limit_keeps_first (m0 : A) (rest : list A) (mt : Z)
  (Hsized : Forall (sized field_len) (m0 :: rest))
  (Hrest : rest <> []) :
  let r := _apply_token_limit field_len (m0 :: rest) mt "smart" in
  (exists k, (k < length rest)%nat /\ r = Ok (m0 :: drop k rest) /\
     (exists t, estimate_tokens field_len (m0 :: drop k rest) = Ok t /\ t <= mt) /\
     forall j, (j < k)%nat ->
       exists t, estimate_tokens field_len (m0 :: drop j rest) = Ok t /\ mt < t)
  \/ ((forall j, (j < length rest)%nat ->
         exists t, estimate_tokens field_len (m0 :: drop j rest) = Ok t /\ mt < t) /\
      exists k, (k <= length (m0 :: rest))%nat /\ r = Ok (drop k (m0 :: rest)) /\
        (forall j, (j < k)%nat ->
           exists t, estimate_tokens field_len (drop j (m0 :: rest)) = Ok t /\ mt < t) /\
        ((k < length (m0 :: rest))%nat ->
           exists t, estimate_tokens field_len (drop k (m0 :: rest)) = Ok t /\ t <= mt)).
Proof. exact (limit_smart_spec m0 rest mt Hsized Hrest). Qed.

Lemma token_limit_shape (msgs : list A) (mt : Z) (mode : string)
  (Hsized : Forall (sized field_len) msgs) :
  let r := _apply_token_limit field_len msgs mt mode in
  (exists k, (k <= length msgs)%nat /\ r = Ok (drop k msgs) /\
     ((k < length msgs)%nat ->
        exists t, estimate_tokens field_len (drop k msgs) = Ok t /\ t <= mt))
  \/ (exists m0 rest k, msgs = m0 :: rest /\ r = Ok (m0 :: drop k rest) /\
        exists t, estimate_tokens field_len (m0 :: drop k rest) = Ok t /\ t <= mt).
Proof.
  intros r. subst r.
  destruct (decide (mode = "smart" /\ (1 < length msgs)%nat)) as [[-> Hl]|Hn].
  - destruct msgs as [|m0 rest]; [simpl in Hl; lia|].
    assert (Hrest : rest <> []) by (intros ->; simpl in Hl; lia).
    destruct (limit_smart_spec m0 rest mt Hsized Hrest)
      as [(k & _ & Hr & Hfit & _)|(_ & k & Hk & Hr & _ & Hfit)].
    + right. exists m0, rest, k. split; [reflexivity|]. split; [exact Hr|exact Hfit].
    + left. exists k. split; [exact Hk|]. split; [exact Hr|exact Hfit].
  - assert (Hm : mode <> "smart" \/ (length msgs <= 1)%nat).
    { destruct (decide (mode = "smart")) as [->|Hne]; [right|left; exact Hne].
      destruct (decide (1 < length msgs)%nat); [|lia]. exfalso; tauto. }
    destruct (limit_suffix_spec msgs mt mode Hsized Hm)
      as (k & Hk & Hr & _ & Hfit).
    left. exists k. split; [exact Hk|]. split; [exact Hr|exact Hfit].
Qed.

Lemma limit_fits_sublist (msgs : list A) (mt : Z) (mode : string)
  (Hsized : Forall (sized field_len) msgs) :
  exists r, _apply_token_limit field_len msgs mt mode = Ok r /\
    ((exists t, estimate_tokens field_len r = Ok t /\ t <= mt) \/ r = []) /\
    sublist r msgs.
Proof.
  destruct (token_limit_shape msgs mt mode Hsized)
    as [(k & Hk & Hr & Hfit)|(m0 & rest & k & Hm & Hr & Hfit)].
  - exists (drop k msgs). split; [exact Hr|]. split; [|apply sublist_drop].
    destruct (decide (k < length msgs)%nat) as [Hlt|Hge].
    + left. apply Hfit; exact Hlt.
    + right. apply drop_ge. lia.
  - exists (m0 :: drop k rest). split; [exact Hr|]. split; [left; exact Hfit|].
    rewrite Hm. apply sublist_skip, sublist_drop.
Qed.

(** Whatever the mode, on messages whose ["content"] and ["speaker"] all
    have a length, [_apply_token_limit] returns a list that fits the
    token budget or is empty, and keeps messages in their order without
    adding any: it is a sublist of its input. *)
Theorem token_limit_fits_or_empty (msgs : list A) (mt : Z) (mode : string)
  (Hsized : Forall (sized field_len) msgs) :
  exists r, _apply_token_limit field_len msgs mt mode = Ok r /\
    ((exists t, estimate_tokens field_len r = Ok t /\ t <= mt) \/ r = []) /\
    sublist r msgs.
Proof. exact (limit_fits_sublist msgs mt mode Hsized). Qed.

(** *** Exceptions of [_apply_token_limit] and [select] *)

Lemma limit_err_in (sel : list A) mt mode e :
  _apply_token_limit field_len sel mt mode = Err e ->
  exists m, In m sel /\ msg_chars field_len m = Err e.
Proof.
  assert (Hsuf : forall X, suffix_or_empty field_len X mt = Err e ->
            exists m, In m X /\ msg_chars field_len m = Err e).
  { intros X. unfold suffix_or_empty.
    destruct (first_fit field_len (fun i => last_n i X) mt (length X)) as [[c|]|e'] eqn:E;
      try discriminate.
    intros [= <-]. destruct (first_fit_err _ _ _ _ E) as (j & _ & Hj).
    destruct (estimate_err_in _ _ Hj) as (m & Hin & Hm).
    exists m. split; [|exact Hm]. unfold last_n in Hin. exact (In_drop _ _ _ Hin). }
  unfold _apply_token_limit. destruct sel as [|m0 rest]; [discriminate|].
  destruct (estimate_tokens field_len (m0 :: rest)) as [t|e'] eqn:Et.
  2:{ intros [= <-]. exact (estimate_err_in _ _ Et). }
  destruct (t <=? mt); [discriminate|].
  destruct (String.eqb mode "smart" && (1 <? length (m0 :: rest))%nat); [|exact (Hsuf _)].
  destruct (first_fit field_len (fun i => [m0] ++ last_n i rest) mt (length rest))
    as [[c|]|e'] eqn:E; [discriminate|exact (Hsuf _)|].
  intros [= <-]. destruct (first_fit_err _ _ _ _ E) as (j & _ & Hj).
  destruct (estimate_err_in _ _ Hj) as (m & Hin & Hm).
  exists m. split; [|exact Hm]. simpl in Hin. unfold last_n in Hin.
  destruct Hin as [<-|Hin]; [left; reflexivity|right; exact (In_drop _ _ _ Hin)].
Qed.

(** On non-empty messages, [_apply_token_limit] raises the exception of
    the first message whose ["content"] or ["speaker"] has no length:
    the first [estimate_tokens] call, over all the messages, meets it
    before anything is trimmed. *)
Theorem token_limit_raises (pre post : list A) (m : A) (e : py_exn)
    (mt : Z) (mode : string)
  (Hpre : Forall (sized field_len) pre)
  (Hm : msg_chars field_len m = Err e) :
  _apply_token_limit field_len (pre ++ m :: post) mt mode = Err e.
Proof.
  pose proof (sum_chars_first_err pre post m e Hpre Hm 0) as Hs.
  unfold _apply_token_limit, estimate_tokens.
  destruct (pre ++ m :: post) as [|x xs] eqn:Ep; [destruct pre; discriminate|].
  rewrite Hs. reflexivity.
Qed.

Lemma smart_select_sublist (msgs : list A) : sublist (_smart_select msgs) msgs.
Proof.
  unfold _smart_select, last_n.
  destruct (length msgs <? 10)%nat eqn:E; [reflexivity|].
  apply Nat.ltb_ge in E.
  destruct msgs as [|m0 rest]; [constructor|].
  simpl in *. replace (length rest - 4)%nat with (S (length rest - 5)) by lia.
  simpl. apply sublist_skip, sublist_drop.
Qed.

(** [select] raises [ValueError("Unknown context mode: " + mode)] when
    the mode is not one of the five it knows.  For a known mode, with
    no token budget or on messages whose ["content"] and ["speaker"] all
    have a length, it returns a sublist of the messages which, under a
    budget, fits it or is empty.  It raises nothing else than that
    [ValueError] and, under a budget, the exception a message's
    ["content"] or ["speaker"] raises on [len] or [get]. *)
Theorem select_result_or_raises (msgs : list A) (mode : string)
    (mt : option Z) :
  (~ In mode ["none"; "minimal"; "recent"; "smart"; "full"] ->
     select field_len msgs mode mt = Err (ValueError ("Unknown context mode: " ++ mode)))
  /\ (In mode ["none"; "minimal"; "recent"; "smart"; "full"] ->
      mt = None \/ Forall (sized field_len) msgs ->
      exists r, select field_len msgs mode mt = Ok r /\ sublist r msgs /\
        forall b, mt = Some b ->
          (exists t, estimate_tokens field_len r = Ok t /\ t <= b) \/ r = [])
  /\ (forall e, select field_len msgs mode mt = Err e ->
      (~ In mode ["none"; "minimal"; "recent"; "smart"; "full"] /\
       e = ValueError ("Unknown context mode: " ++ mode))
      \/ (mt <> None /\ exists m, In m msgs /\ msg_chars field_len m = Err e)).
Proof.
  set (known := ["none"; "minimal"; "recent"; "smart"; "full"]).
  assert (Hknown : forall sel, sublist sel msgs -> In mode known ->
    (~ In mode known ->
       match mt with
       | Some b => _apply_token_limit field_len sel b mode
       | None => Ok sel end = Err (ValueError ("Unknown context mode: " ++ mode)))
    /\ (In mode known -> mt = None \/ Forall (sized field_len) msgs ->
        exists r, match mt with
          | Some b => _apply_token_limit field_len sel b mode
          | None => Ok sel end = Ok r /\ sublist r msgs /\
          forall b, mt = Some b ->
            (exists t, estimate_tokens field_len r = Ok t /\ t <= b) \/ r = [])
    /\ (forall e, match mt with
          | Some b => _apply_token_limit field_len sel b mode
          | None => Ok sel end = Err e ->
        (~ In mode known /\ e = ValueError ("Unknown context mode: " ++ mode))
        \/ (mt <> None /\ exists m, In m msgs /\ msg_chars field_len m = Err e))).
  { intros sel Hs Hin. split; [tauto|]. split.
    - intros _ Hcase. destruct mt as [b|].
      + destruct Hcase as [Hc|Hc]; [discriminate|].
        destruct (limit_fits_sublist sel b mode (Forall_of_sublist _ _ _ Hs Hc))
          as (r & Hr & Hf & Hsub).
        exists r. split; [exact Hr|]. split; [etransitivity; eassumption|].
        intros b' [= <-]. exact Hf.
      + exists sel. split; [reflexivity|]. split; [exact Hs|discriminate].
    - intros e He. right. destruct mt as [b|]; [|discriminate].
      split; [discriminate|].
      destruct (limit_err_in _ _ _ _ He) as (m & Hin' & Hm).
      exists m. split; [exact (In_of_sublist _ _ _ Hs Hin')|exact Hm]. }
  unfold select.
  destruct (String.eqb_spec mode "none") as [->|Hn1].
  { split; [simpl; tauto|]. split.
    - intros _ _. exists []. split; [reflexivity|]. split; [apply sublist_nil_l|].
      intros; right; reflexivity.
    - intros e He. discriminate. }
  destruct (String.eqb_spec mode "minimal") as [->|Hn2].
  { apply Hknown; [|simpl; tauto].
    destruct msgs; [reflexivity|apply sublist_drop]. }
  destruct (String.eqb_spec mode "recent") as [->|Hn3].
  { apply Hknown; [|simpl; tauto].
    destruct (10 <? length msgs)%nat; [apply sublist_drop|reflexivity]. }
  destruct (String.eqb_spec mode "smart") as [->|Hn4].
  { apply Hknown; [apply smart_select_sublist|simpl; tauto]. }
  destruct (String.eqb_spec mode "full") as [->|Hn5].
  { apply Hknown; [reflexivity|simpl; tauto]. }
  assert (Hout : ~ In mode known) by (simpl; intuition congruence).
  split; [reflexivity|]. split; [intros Hin; contradiction|].
  intros e [= <-]. left. split; [exact Hout|reflexivity].
Qed.

End Extras.

Lemma token_limit_longest_suffix_witness :
  let fl := fun (m : Z) (key : string) =>
              if String.eqb key "content" then Ok m else Ok 0 in
  Forall (sized fl) [40; 8; 4] /\
  ("recent" <> "smart" \/ (length [40; 8; 4] <= 1)%nat) /\
  exists k, (k <= length [40; 8; 4])%nat /\
    _apply_token_limit fl [40; 8; 4] 5 "recent" = Ok (drop k [40; 8; 4]) /\
    (forall j, (j < k)%nat ->
       exists t, estimate_tokens fl (drop j [40; 8; 4]) = Ok t /\ 5 < t) /\
    ((k < length [40; 8; 4])%nat ->
       exists t, estimate_tokens fl (drop k [40; 8; 4]) = Ok t /\ t <= 5).
Proof.
  intros fl.
  assert (Hs : Forall (sized fl) [40; 8; 4]).
  { repeat (apply List.Forall_cons; [eexists; reflexivity|]). apply List.Forall_nil. }
  split; [exact Hs|]. split; [left; discriminate|].
  apply (token_limit_longest_suffix fl [40; 8; 4] 5 "recent" Hs).
  left; discriminate.
Defined.

Lemma smart_token_limit_keeps_first_witness :
  let fl := fun (m : Z) (key : string) =>
              if String.eqb key "content" then Ok m else Ok 0 in
  Forall (sized fl) (4 :: [40; 8; 4]) /\ [40; 8; 4] <> [] /\
  let r := _apply_token_limit fl (4 :: [40; 8; 4]) 6 "smart" in
  (exists k, (k < length [40; 8; 4])%nat /\ r = Ok (4 :: drop k [40; 8; 4]) /\
     (exists t, estimate_tokens fl (4 :: drop k [40; 8; 4]) = Ok t /\ t <= 6) /\
     forall j, (j < k)%nat ->
       exists t, estimate_tokens fl (4 :: drop j [40; 8; 4]) = Ok t /\ 6 < t)
  \/ ((forall j, (j < length [40; 8; 4])%nat ->
         exists t, estimate_tokens fl (4 :: drop j [40; 8; 4]) = Ok t /\ 6 < t) /\
      exists k, (k <= length (4 :: [40; 8; 4]))%nat /\
        r = Ok (drop k (4 :: [40; 8; 4])) /\
        (forall j, (j < k)%nat ->
           exists t, estimate_tokens fl (drop j (4 :: [40; 8; 4])) = Ok t /\ 6 < t) /\
        ((k < length (4 :: [40; 8; 4]))%nat ->
           exists t, estimate_tokens fl (drop k (4 :: [40; 8; 4])) = Ok t /\ t <= 6)).
Proof.
  intros fl.
  assert (Hs : Forall (sized fl) (4 :: [40; 8; 4])).
  { repeat (apply List.Forall_cons; [eexists; reflexivity|]). apply List.Forall_nil. }
  split; [exact Hs|]. split; [discriminate|].
  apply (smart_token_limit_keeps_first fl 4 [40; 8; 4] 6 Hs).
  discriminate.
Defined.

Lemma token_limit_fits_or_empty_witness :
  let fl := fun (m : Z) (key : string) =>
              if String.eqb key "content" then Ok m else Ok 0 in
  Forall (sized fl) [40; 8; 4] /\
  exists r, _apply_token_limit fl [40; 8; 4] 3 "full" = Ok r /\
    ((exists t, estimate_tokens fl r = Ok t /\ t <= 3) \/ r = []) /\
    sublist r [40; 8; 4].
Proof.
  intros fl.
  assert (Hs : Forall (sized fl) [40; 8; 4]).
  { repeat (apply List.Forall_cons; [eexists; reflexivity|]). apply List.Forall_nil. }
  split; [exact Hs|].
  exact (token_limit_fits_or_empty fl [40; 8; 4] 3 "full" Hs).
Defined.

Lemma token_limit_raises_witness :
  let fl := fun (m : Z) (key : string) =>
              if m <? 0 then Err (AttributeError "'list' object has no attribute 'get'")
              else if String.eqb key "content" then Ok m else Ok 0 in
  Forall (sized fl) [40] /\
  msg_chars fl (-1) = Err (AttributeError "'list' object has no attribute 'get'") /\
  _apply_token_limit fl ([40] ++ -1 :: [8]) 100 "recent"
  = Err (AttributeError "'list' object has no attribute 'get'").
Proof.
  intros fl.
  assert (Hs : Forall (sized fl) [40]).
  { apply List.Forall_cons; [eexists; reflexivity|]. apply List.Forall_nil. }
  assert (Hm : msg_chars fl (-1) = Err (AttributeError "'list' object has no attribute 'get'"))
    by reflexivity.
  split; [exact Hs|]. split; [exact Hm|].
  exact (token_limit_raises fl [40] [8] (-1) _ 100 "recent" Hs Hm).
Defined.
End ContextSelectorExtras.

Module AdapterExtras.
Import Adapters AdapterFacts.

Lemma replace_nl_free (fuel : nat) (s : pystr) :
  (length s <= fuel)%nat -> ~ In 10 (replace_fuel fuel [10] [32] s).
Proof.
  revert s. induction fuel as [|fuel IH]; intros s Hl.
  - destruct s; simpl in *; [tauto|lia].
  - destruct s as [|c s']; cbn [replace_fuel lprefix]; [simpl; tauto|].
    destruct (10 =? c) eqn:E; cbn [andb app drop length In].
    + intros [H|H]; [discriminate|]. revert H. apply IH. rewrite ?drop_0; simpl in *. lia.
    + apply Z.eqb_neq in E. intros [H|H]; [congruence|]. revert H.
      apply IH. simpl in Hl. lia.
Qed.

Lemma py_replace_nl_free (s : pystr) : ~ In 10 (py_replace [10] [32] s).
Proof. apply replace_nl_free. lia. Qed.

Lemma join_nl_free (sep : pystr) (items : list pystr) :
  ~ In 10 sep -> Forall (fun x => ~ In 10 x) items -> ~ In 10 (join sep items).
Proof.
  intros Hs. induction items as [|x rest IH]; intros Hall; [simpl; tauto|].
  inversion Hall as [|? ? Hx Hrest]; subst.
  destruct rest as [|y rest']; [exact Hx|].
  change (join sep (x :: y :: rest')) with (x ++ sep ++ join sep (y :: rest')).
  rewrite !in_app_iff. specialize (IH Hrest). tauto.
Qed.

Lemma map_fresh_id (pid : Z) (st : pstatus) (l : list (Z * pstatus)) :
  ~ In pid (map fst l) ->
  map (fun '(p, s) => if p =? pid then (p, st) else (p, s)) l = l.
Proof.
  induction l as [|[p s] l IH]; simpl; [reflexivity|].
  intros Hn. destruct (p =? pid) eqn:E.
  - apply Z.eqb_eq in E. subst. tauto.
  - f_equal. apply IH. tauto.
Qed.

(** [_format_history] writes every message as [speaker: content] with
    the newlines of the content replaced by spaces, joined by [" | "]:
    when no speaker name contains a newline, the history text is a
    single line. *)
Theorem format_history_single_line (history : list hist_msg)
  (Hsp : forall m sp, In m history -> h_speaker m = Some sp -> ~ In 10 sp) :
  ~ In 10 (_format_history history).
Proof.
  unfold _format_history. destruct history as [|m0 rest]; [simpl; tauto|].
  apply join_nl_free; [simpl; intuition discriminate|].
  apply Forall_forall. intros x Hx. apply list_elem_of_In, in_map_iff in Hx.
  destruct Hx as (m & <- & Hm).
  rewrite !in_app_iff. intros [H|[H|H]].
  - destruct (h_speaker m) as [sp|] eqn:E.
    + exact (Hsp m sp Hm E H).
    + simpl in H. intuition discriminate.
  - simpl in H. intuition discriminate.
  - exact (py_replace_nl_free _ H).
Qed.

(** In [stdin] mode (any [input_method] other than ["arg"]) the argv is
    the configured command followed by the configured [args], unchanged,
    and the text written to standard input ends with the message; it is
    exactly the message unless history is passed. *)
Theorem stdin_mode_command (cfg : adapter_config) (message : pystr)
  (history : option (list hist_msg)) (pass_history : bool)
  (Hmode : default (lit "stdin") (a_input_method cfg) <> lit "arg") :
  fst (build_command cfg message history pass_history)
    = a_command cfg :: default [] (a_args cfg) /\
  exists pre, snd (build_command cfg message history pass_history)
    = Some (pre ++ message) /\ (pass_history = false -> pre = []).
Proof.
  unfold build_command.
  rewrite bool_decide_false by exact Hmode. simpl. split.
  - destruct history as [[|h hs]|]; [reflexivity| |reflexivity].
    destruct pass_history; [|reflexivity].
    destruct (truthy (Some message)); reflexivity.
  - destruct history as [[|h hs]|]; try (exists []; split; reflexivity).
    destruct pass_history; [|exists []; split; reflexivity].
    remember (_format_history (h :: hs)) as ht eqn:Eht.
    destruct message as [|c m'] eqn:Em; simpl.
    + exists ht. rewrite app_nil_r. split; [reflexivity|discriminate].
    + exists (ht ++ lit " | ").
      rewrite <- app_assoc. split; [reflexivity|discriminate].
Qed.

(** The error of the encoder sits at the first surrogate of the text. *)
Lemma encode_error_first pos (s : pystr) e : utf8_encode pos s = inr e ->
  (pos <= u_start e)%nat /\ u_reason e = "surrogates not allowed" /\
  is_surrogate (nth (u_start e - pos) s 0) = true /\
  forall i, (i < u_start e - pos)%nat -> is_surrogate (nth i s 0) = false.
Proof.
  revert pos. induction s as [|c s IH]; intros pos H; [discriminate|].
  simpl in H. destruct (is_surrogate c) eqn:Hc.
  - injection H as <-. simpl. rewrite Nat.sub_diag. simpl.
    split; [lia|split; [reflexivity|split; [exact Hc|intros i Hi; lia]]].
  - destruct (utf8_encode (S pos) s) as [bs|e'] eqn:E; [discriminate|].
    injection H as <-. destruct (IH (S pos) E) as (Hle & Hr & Hs & Hb).
    split; [lia|split; [exact Hr|]].
    replace (u_start e' - pos)%nat with (S (u_start e' - S pos)) by lia.
    split; [exact Hs|]. intros [|i] Hi; [exact Hc|]. simpl. apply Hb. lia.
Qed.

(** A call spawns at most one process and changes no other entry of the
    process table: when the spawn fails the table is unchanged; when the
    command is spawned, one entry is added under the next pid, left
    [Running] when standard input could not be encoded or the call timed
    out, and [Exited rc] otherwise. *)
Theorem call_adds_one_process (cfg : adapter_config) (message : pystr)
  (history : option (list hist_msg)) (pass_history : bool)
  (b : behaviour) (os : os_state)
  (Hfresh : ~ In (next_pid os) (map fst (procs os))) :
  let stdin := default [] (snd (build_command cfg message history pass_history)) in
  let os' := snd (_call_bash_adapter cfg message history pass_history b os) in
  match b with
  | Runs _ comm_ms rc _ _ =>
      procs os' = procs os ++
        [(next_pid os, if existsb is_surrogate stdin || (timeout_of cfg * 1000 <? comm_ms)
                       then Running else Exited rc)]
      /\ next_pid os' = next_pid os + 1
  | _ => os' = os
  end.
Proof.
  intros stdin os'. subst os' stdin.
  destruct b as [|el msg|sp cm rc out err];
    [unfold _call_bash_adapter; destruct (build_command _ _ _ _); reflexivity
    |unfold _call_bash_adapter; destruct (build_command _ _ _ _); reflexivity|].
  rewrite call_runs. cbv zeta.
  set (si := snd (build_command cfg message history pass_history)).
  destruct (existsb is_surrogate (default [] si)) eqn:Hs.
  - destruct (stdin_bytes_fails si Hs) as (e & _ & ->). simpl. split; reflexivity.
  - destruct (stdin_bytes_ok si Hs) as [x ->]. simpl orb.
    destruct (timeout_of cfg * 1000 <? cm) eqn:Et; [simpl; split; reflexivity|].
    assert (Hset : procs (set_status (next_pid os) (Exited rc)
                     {| procs := procs os ++ [(next_pid os, Running)];
                        next_pid := next_pid os + 1 |})
                   = procs os ++ [(next_pid os, Exited rc)]).
    { unfold set_status. simpl. rewrite map_app, map_fresh_id by exact Hfresh.
      simpl. rewrite Z.eqb_refl. reflexivity. }
    destruct (utf8_decode 0 out) as [ot|pos]; simpl;
      [|split; [exact Hset|reflexivity]].
    destruct err as [|e0 er]; [simpl; split; [exact Hset|reflexivity]|].
    destruct (utf8_decode 0 (e0 :: er)) as [t|pos]; simpl;
      split; first [exact Hset|reflexivity].
Qed.

(** An exit code of 0 in the result only comes from a command that was
    sent an encodable standard input, ran within the timeout, exited with
    status 0 and wrote valid UTF-8 on stdout; such a result carries no
    error, and its response is that stdout stripped. *)
Theorem zero_exit_means_success (cfg : adapter_config) (message : pystr)
  (history : option (list hist_msg)) (pass_history : bool)
  (b : behaviour) (os : os_state)
  (H0 : exit_code (fst (_call_bash_adapter cfg message history pass_history b os)) = 0) :
  let r := fst (_call_bash_adapter cfg message history pass_history b os) in
  error r = None /\
  exists spawn_ms comm_ms out err out_text, b = Runs spawn_ms comm_ms 0 out err /\
    comm_ms <= timeout_of cfg * 1000 /\
    existsb is_surrogate (default [] (snd (build_command cfg message history pass_history)))
      = false /\
    utf8_decode 0 out = inl out_text /\ response r = strip out_text.
Proof.
  intros r. subst r. revert H0.
  destruct b as [|el msg|sp cm rc out err];
    [unfold _call_bash_adapter; destruct (build_command _ _ _ _); discriminate
    |unfold _call_bash_adapter; destruct (build_command _ _ _ _); discriminate|].
  rewrite call_runs. cbv zeta.
  set (si := snd (build_command cfg message history pass_history)).
  destruct (existsb is_surrogate (default [] si)) eqn:Hs.
  { destruct (stdin_bytes_fails si Hs) as (e & _ & ->). discriminate. }
  destruct (stdin_bytes_ok si Hs) as [x ->].
  destruct (timeout_of cfg * 1000 <? cm) eqn:Et; [discriminate|].
  apply Z.ltb_ge in Et.
  destruct (utf8_decode 0 out) as [ot|pos] eqn:Eo; [|discriminate].
  destruct err as [|e0 er];
    [|destruct (utf8_decode 0 (e0 :: er)) as [t|pos]];
    cbn [fst exit_code error response]; intros H0; try discriminate;
    subst rc; (split; [reflexivity|]);
    eexists sp, cm, out, _, ot; repeat split; auto.
Qed.

(** A process that exits within the timeout, sent an encodable standard
    input: when stdout decodes as UTF-8, the response is the stripped
    stdout and the exit code the process's, the error being absent for
    exit code 0 and otherwise the stripped stderr, or absent when stderr
    is empty.  When stdout, or a non-empty stderr, is not valid UTF-8,
    the call reports the decoder's message instead, with an empty
    response and exit code -1, whatever the exit code.  The duration is
    the clock read after [communicate]. *)
Theorem clean_exit_result (cfg : adapter_config) (message : pystr)
    (history : option (list hist_msg)) (pass_history : bool)
    (spawn_ms comm_ms rc : Z) (out err : list Z) (os : os_state)
    (Hin : comm_ms <= timeout_of cfg * 1000)
    (Henc : existsb is_surrogate
              (default [] (snd (build_command cfg message history pass_history))) = false) :
  let r := fst (_call_bash_adapter cfg message history pass_history
                  (Runs spawn_ms comm_ms rc out err) os) in
  (forall o, utf8_decode 0 out = inl o -> err = [] ->
     r = {| response := strip o; r_adapter := a_name cfg; exit_code := rc;
            execution_time_ms := spawn_ms + comm_ms; error := None |})
  /\ (forall o e, utf8_decode 0 out = inl o -> err <> [] -> utf8_decode 0 err = inl e ->
     r = {| response := strip o; r_adapter := a_name cfg; exit_code := rc;
            execution_time_ms := spawn_ms + comm_ms;
            error := if rc =? 0 then None else Some (strip e) |})
  /\ (forall p, utf8_decode 0 out = inr p ->
     r = {| response := []; r_adapter := a_name cfg; exit_code := -1;
            execution_time_ms := spawn_ms + comm_ms;
            error := Some (decode_error_text out p) |})
  /\ (forall o p, utf8_decode 0 out = inl o -> err <> [] -> utf8_decode 0 err = inr p ->
     r = {| response := []; r_adapter := a_name cfg; exit_code := -1;
            execution_time_ms := spawn_ms + comm_ms;
            error := Some (decode_error_text err p) |}).
Proof.
  intros r. subst r. rewrite call_runs. cbv zeta.
  destruct (stdin_bytes_ok _ Henc) as [x ->].
  assert (Hn : (timeout_of cfg * 1000 <? comm_ms) = false) by (apply Z.ltb_ge; lia).
  rewrite Hn.
  repeat split.
  - intros o Ho ->. rewrite Ho. simpl. destruct (rc =? 0); reflexivity.
  - intros o e Ho Hne He. rewrite Ho.
    destruct err as [|b bs]; [congruence|]. rewrite He. reflexivity.
  - intros p Hp. rewrite Hp. reflexivity.
  - intros o p Ho Hne Hp. rewrite Ho.
    destruct err as [|b bs]; [congruence|]. rewrite Hp. reflexivity.
Qed.

(** When the text for standard input holds a surrogate, which UTF-8
    cannot carry, the call fails right after the spawn, whatever the
    process does: the encoder's error sits at the first surrogate, and
    the call returns an empty response, exit code -1, the clock read at
    the spawn as duration and the encoder's message; the spawned process
    is left running, never waited for. *)
Theorem surrogate_stdin_fails_after_spawn (cfg : adapter_config) (message : pystr)
    (history : option (list hist_msg)) (pass_history : bool)
    (spawn_ms comm_ms rc : Z) (out err : list Z) (os : os_state)
    (Hsur : existsb is_surrogate
              (default [] (snd (build_command cfg message history pass_history))) = true) :
  let stdin := default [] (snd (build_command cfg message history pass_history)) in
  exists e, utf8_encode 0 stdin = inr e /\ u_reason e = "surrogates not allowed" /\
    is_surrogate (nth (u_start e) stdin 0) = true /\
    (forall i, (i < u_start e)%nat -> is_surrogate (nth i stdin 0) = false) /\
    _call_bash_adapter cfg message history pass_history
      (Runs spawn_ms comm_ms rc out err) os =
    ({| response := []; r_adapter := a_name cfg; exit_code := -1;
        execution_time_ms := spawn_ms; error := Some (encode_error_text stdin e) |},
     {| procs := procs os ++ [(next_pid os, Running)]; next_pid := next_pid os + 1 |}).
Proof.
  intros stdin. destruct (stdin_bytes_fails _ Hsur) as (e & He & Hb).
  exists e. destruct (encode_error_first 0 _ e He) as (_ & Hr & Hs & Hbefore).
  rewrite Nat.sub_0_r in Hs, Hbefore.
  split; [exact He|split; [exact Hr|split; [exact Hs|split]]].
  - intros i Hi. apply Hbefore. lia.
  - rewrite call_runs. cbv zeta. rewrite Hb. reflexivity.
Qed.

Lemma format_history_single_line_witness :
  (forall m sp,
     In m [{| h_speaker := Some (lit "user"); h_content := Some [104; 10; 105] |}] ->
     h_speaker m = Some sp -> ~ In 10 sp) /\
  ~ In 10 (_format_history
             [{| h_speaker := Some (lit "user"); h_content := Some [104; 10; 105] |}]).
Proof.
  assert (H : forall m sp,
     In m [{| h_speaker := Some (lit "user"); h_content := Some [104; 10; 105] |}] ->
     h_speaker m = Some sp -> ~ In 10 sp).
  { intros m sp [<-|[]] [= <-]. vm_compute. intuition discriminate. }
  split; [exact H|]. exact (format_history_single_line _ H).
Defined.

Lemma stdin_mode_command_witness :
  default (lit "stdin") (a_input_method ({| a_name := lit "demo"; a_command := lit "cat"; a_args := Some [lit "-u"];
     a_input_method := None; a_timeout_seconds := Some 5 |})) <> lit "arg" /\
  fst (build_command ({| a_name := lit "demo"; a_command := lit "cat"; a_args := Some [lit "-u"];
     a_input_method := None; a_timeout_seconds := Some 5 |}) (lit "hi") None true)
    = a_command ({| a_name := lit "demo"; a_command := lit "cat"; a_args := Some [lit "-u"];
     a_input_method := None; a_timeout_seconds := Some 5 |}) :: default [] (a_args ({| a_name := lit "demo"; a_command := lit "cat"; a_args := Some [lit "-u"];
     a_input_method := None; a_timeout_seconds := Some 5 |})) /\
  exists pre, snd (build_command ({| a_name := lit "demo"; a_command := lit "cat"; a_args := Some [lit "-u"];
     a_input_method := None; a_timeout_seconds := Some 5 |}) (lit "hi") None true)
    = Some (pre ++ lit "hi") /\ (true = false -> pre = []).
Proof.
  split; [vm_compute; discriminate|].
  apply (stdin_mode_command ({| a_name := lit "demo"; a_command := lit "cat"; a_args := Some [lit "-u"];
     a_input_method := None; a_timeout_seconds := Some 5 |}) (lit "hi") None true).
  vm_compute; discriminate.
Defined.

Lemma call_adds_one_process_witness :
  ~ In (next_pid {| procs := [(7, Exited 0)]; next_pid := 8 |})
       (map fst (procs {| procs := [(7, Exited 0)]; next_pid := 8 |})) /\
  procs (snd (_call_bash_adapter {| a_name := lit "demo"; a_command := lit "cat"; a_args := Some [lit "-u"];
       a_input_method := None; a_timeout_seconds := Some 5 |} (lit "hi") None true
                (Runs 4 120 3 [111; 107] []) {| procs := [(7, Exited 0)]; next_pid := 8 |}))
    = [(7, Exited 0); (8, Exited 3)].
Proof.
  assert (H : ~ In (next_pid {| procs := [(7, Exited 0)]; next_pid := 8 |})
       (map fst (procs {| procs := [(7, Exited 0)]; next_pid := 8 |}))).
  { simpl. intuition discriminate. }
  split; [exact H|].
  destruct (call_adds_one_process {| a_name := lit "demo"; a_command := lit "cat"; a_args := Some [lit "-u"];
       a_input_method := None; a_timeout_seconds := Some 5 |} (lit "hi") None true
              (Runs 4 120 3 [111; 107] []) {| procs := [(7, Exited 0)]; next_pid := 8 |} H)
    as [Hp _].
  rewrite Hp. vm_compute. reflexivity.
Defined.

Lemma zero_exit_means_success_witness :
  exit_code (fst (_call_bash_adapter {| a_name := lit "demo"; a_command := lit "cat"; a_args := Some [lit "-u"];
       a_input_method := None; a_timeout_seconds := Some 5 |} (lit "hi") None true
                    (Runs 4 120 0 [111; 107; 10] []) {| procs := []; next_pid := 8 |})) = 0 /\
  error (fst (_call_bash_adapter {| a_name := lit "demo"; a_command := lit "cat"; a_args := Some [lit "-u"];
       a_input_method := None; a_timeout_seconds := Some 5 |} (lit "hi") None true
                (Runs 4 120 0 [111; 107; 10] []) {| procs := []; next_pid := 8 |})) = None.
Proof.
  assert (H : exit_code (fst (_call_bash_adapter {| a_name := lit "demo"; a_command := lit "cat"; a_args := Some [lit "-u"];
       a_input_method := None; a_timeout_seconds := Some 5 |} (lit "hi") None true
                (Runs 4 120 0 [111; 107; 10] []) {| procs := []; next_pid := 8 |})) = 0)
    by (vm_compute; reflexivity).
  split; [exact H|].
  exact (proj1 (zero_exit_means_success {| a_name := lit "demo"; a_command := lit "cat"; a_args := Some [lit "-u"];
       a_input_method := None; a_timeout_seconds := Some 5 |} (lit "hi") None true
                  (Runs 4 120 0 [111; 107; 10] []) {| procs := []; next_pid := 8 |} H)).
Defined.

Lemma clean_exit_result_witness :
  120 <= timeout_of {| a_name := lit "demo"; a_command := lit "cat"; a_args := Some [lit "-u"];
       a_input_method := None; a_timeout_seconds := Some 5 |} * 1000 /\
  existsb is_surrogate (default [] (snd (build_command {| a_name := lit "demo"; a_command := lit "cat"; a_args := Some [lit "-u"];
       a_input_method := None; a_timeout_seconds := Some 5 |} (lit "hi") None false))) = false /\
  error (fst (_call_bash_adapter {| a_name := lit "demo"; a_command := lit "cat"; a_args := Some [lit "-u"];
       a_input_method := None; a_timeout_seconds := Some 5 |} (lit "hi") None false
                (Runs 4 120 2 (lit " out" ++ [10]) (lit " boom ")) {| procs := []; next_pid := 1 |}))
    = Some (lit "boom").
Proof.
  assert (H1 : 120 <= timeout_of {| a_name := lit "demo"; a_command := lit "cat"; a_args := Some [lit "-u"];
       a_input_method := None; a_timeout_seconds := Some 5 |} * 1000) by (vm_compute; discriminate).
  assert (H2 : existsb is_surrogate (default [] (snd (build_command {| a_name := lit "demo"; a_command := lit "cat"; a_args := Some [lit "-u"];
       a_input_method := None; a_timeout_seconds := Some 5 |} (lit "hi") None false)))
               = false) by (vm_compute; reflexivity).
  split; [exact H1|split; [exact H2|]].
  destruct (clean_exit_result {| a_name := lit "demo"; a_command := lit "cat"; a_args := Some [lit "-u"];
       a_input_method := None; a_timeout_seconds := Some 5 |} (lit "hi") None false 4 120 2 (lit " out" ++ [10]) (lit " boom ")
              {| procs := []; next_pid := 1 |} H1 H2) as [_ [H _]].
  rewrite (H (lit " out" ++ [10]) (lit " boom ") eq_refl ltac:(discriminate) eq_refl).
  vm_compute. reflexivity.
Defined.

Lemma surrogate_stdin_fails_after_spawn_witness :
  existsb is_surrogate (default [] (snd (build_command {| a_name := lit "demo"; a_command := lit "cat"; a_args := Some [lit "-u"];
       a_input_method := None; a_timeout_seconds := Some 5 |} [104; 55296] None false))) = true /\
  fst (_call_bash_adapter {| a_name := lit "demo"; a_command := lit "cat"; a_args := Some [lit "-u"];
       a_input_method := None; a_timeout_seconds := Some 5 |} [104; 55296] None false (Runs 4 120 0 [] [])
         {| procs := []; next_pid := 1 |})
  = {| response := []; r_adapter := lit "demo"; exit_code := -1; execution_time_ms := 4;
       error := Some (lit "'utf-8' codec can't encode character '\ud800' in position 1: surrogates not allowed") |}.
Proof.
  assert (H : existsb is_surrogate (default [] (snd (build_command {| a_name := lit "demo"; a_command := lit "cat"; a_args := Some [lit "-u"];
       a_input_method := None; a_timeout_seconds := Some 5 |} [104; 55296] None false)))
              = true) by (vm_compute; reflexivity).
  split; [exact H|].
  destruct (surrogate_stdin_fails_after_spawn {| a_name := lit "demo"; a_command := lit "cat"; a_args := Some [lit "-u"];
       a_input_method := None; a_timeout_seconds := Some 5 |} [104; 55296] None false 4 120 0 [] []
              {| procs := []; next_pid := 1 |} H) as (e & He & _ & _ & _ & Hc).
  rewrite Hc. cbn [fst]. f_equal. vm_compute in He. injection He as <-.
  vm_compute. reflexivity.
Defined.

End AdapterExtras.

Module ConversationExtras.
Import Conversation.
Import ConversationFacts.
Local Open Scope string_scope.

(** ** Which files an operation may write *)

Create HintDb untouched.

Lemma untouched_bind {A B} p (c : M A) (k : A -> M B) :
  untouched p c -> (forall a, untouched p (k a)) -> untouched p (bind c k).
Proof.
  intros Hc Hk st. unfold bind. rewrite <- (Hc st).
  destruct (c st) as [[a|e] st']; [apply Hk|reflexivity].
Qed.

Lemma untouched_ret {A} p (a : A) : untouched p (ret a).
Proof. intros st. reflexivity. Qed.
Lemma untouched_raise {A} p e : untouched p (@raise A e).
Proof. intros st. reflexivity. Qed.
Lemma untouched_lift {A} p (r : res A) : untouched p (lift r).
Proof. intros st. reflexivity. Qed.
Lemma untouched_exists p q : untouched p (exists_file q).
Proof. intros st. reflexivity. Qed.
Lemma untouched_read p q : untouched p (read_file q).
Proof. intros st. reflexivity. Qed.
Lemma untouched_print p l : untouched p (print l).
Proof. intros st. reflexivity. Qed.
Lemma untouched_now rt p : untouched p (now_iso rt).
Proof. intros st. reflexivity. Qed.
Lemma untouched_strftime rt p : untouched p (now_strftime rt).
Proof. intros st. reflexivity. Qed.
Lemma untouched_randint rt p : untouched p (randint_draw rt).
Proof. intros st. reflexivity. Qed.
Lemma untouched_write p q txt : p <> q -> untouched p (write_file q txt).
Proof. intros H st. simpl. apply lookup_insert_ne. congruence. Qed.
Lemma untouched_append p q txt : p <> q -> untouched p (append_file q txt).
Proof. intros H st. simpl. apply lookup_insert_ne. congruence. Qed.
Lemma untouched_touch p q : p <> q -> untouched p (touch q).
Proof. intros H st. simpl. apply lookup_insert_ne. congruence. Qed.
Lemma untouched_rename p src dst : p <> src -> p <> dst ->
  untouched p (rename src dst).
Proof.
  intros H1 H2 st. simpl. rewrite lookup_insert_ne by congruence.
  apply lookup_delete_ne. congruence.
Qed.

#[local] Hint Resolve untouched_ret untouched_raise untouched_lift untouched_exists
  untouched_read untouched_print untouched_now untouched_strftime untouched_randint
  untouched_write untouched_append untouched_touch untouched_rename : untouched.

Ltac untouched_tac :=
  repeat first
    [ solve [eauto with untouched]
    | apply untouched_bind; [|intros ?]
    | match goal with
      | |- untouched _ (if ?b then _ else _) => destruct b
      | |- untouched _ (match ?x with _ => _ end) => destruct x
      end ].

Lemma untouched_migrate rt cid p :
  p <> _get_conversation_path cid -> p <> legacy_path cid -> p <> backup_path cid ->
  untouched p (_migrate_if_needed rt cid).
Proof. intros. unfold _migrate_if_needed. untouched_tac. Qed.
#[local] Hint Resolve untouched_migrate : untouched.

Lemma untouched_parse rt cid p : forall lines n, untouched p (parse_lines rt cid n lines).
Proof.
  intros lines n st. destruct (quiet_parse rt cid lines n st) as [-> _]. reflexivity.
Qed.
#[local] Hint Resolve untouched_parse : untouched.

Lemma untouched_read_messages rt cid start stop p :
  p <> _get_conversation_path cid -> p <> legacy_path cid -> p <> backup_path cid ->
  untouched p (read_messages rt cid start stop).
Proof. intros. unfold read_messages. untouched_tac. Qed.
#[local] Hint Resolve untouched_read_messages : untouched.

Lemma untouched_count rt cid p :
  p <> _get_conversation_path cid -> p <> legacy_path cid -> p <> backup_path cid ->
  untouched p (_count_messages rt cid).
Proof. intros. unfold _count_messages. untouched_tac. Qed.
#[local] Hint Resolve untouched_count : untouched.

Lemma untouched_save rt cid m p :
  p <> _get_metadata_path cid -> untouched p (_save_metadata rt cid m).
Proof. intros. unfold _save_metadata. untouched_tac. Qed.
#[local] Hint Resolve untouched_save : untouched.

Lemma not_in_files p cid : ~ In p (conversation_files cid) ->
  p <> _get_conversation_path cid /\ p <> _get_metadata_path cid /\
  p <> legacy_path cid /\ p <> backup_path cid.
Proof. unfold conversation_files. simpl. intuition congruence. Qed.

Lemma untouched_generate rt cid p :
  ~ In p (conversation_files cid) -> untouched p (_generate_metadata rt cid).
Proof.
  intros H. destruct (not_in_files p cid H) as (H1 & H2 & H3 & H4).
  unfold _generate_metadata. untouched_tac.
Qed.
#[local] Hint Resolve untouched_generate : untouched.

Lemma untouched_get_metadata rt cid p :
  ~ In p (conversation_files cid) -> untouched p (get_metadata rt cid).
Proof.
  intros H. destruct (not_in_files p cid H) as (H1 & H2 & H3 & H4).
  unfold get_metadata. untouched_tac.
Qed.
#[local] Hint Resolve untouched_get_metadata : untouched.

Lemma untouched_update rt cid sp p :
  ~ In p (conversation_files cid) -> untouched p (_update_metadata_on_append rt cid sp).
Proof.
  intros H. destruct (not_in_files p cid H) as (H1 & H2 & H3 & H4).
  unfold _update_metadata_on_append. untouched_tac.
Qed.
#[local] Hint Resolve untouched_update : untouched.

Lemma untouched_append_message rt cid sp ct md p :
  ~ In p (conversation_files cid) -> untouched p (append_message rt cid sp ct md).
Proof.
  intros H. pose proof H as H0. destruct (not_in_files p cid H) as (H1 & H2 & H3 & H4).
  unfold append_message. untouched_tac.
Qed.
#[local] Hint Resolve untouched_append_message : untouched.

Lemma conversation_files_sanitize cid :
  conversation_files (_sanitize_id cid) = conversation_files cid.
Proof.
  unfold conversation_files, _get_conversation_path, _get_metadata_path, legacy_path,
    backup_path. rewrite sanitize_idempotent. reflexivity.
Qed.

Lemma untouched_bind_ret {A B} p (a : A) (k : A -> M B) :
  untouched p (k a) -> untouched p (bind (ret a) k).
Proof. intros H st. apply H. Qed.

Lemma untouched_create rt cid im md host p :
  cid <> "" -> ~ In p (conversation_files cid) ->
  untouched p (create_conversation rt (Some cid) im md host).
Proof.
  intros Hne H. rewrite <- conversation_files_sanitize in H.
  destruct (not_in_files p _ H) as (H1 & H2 & H3 & H4).
  unfold create_conversation, conversation_exists.
  apply String.eqb_neq in Hne. rewrite Hne.
  apply untouched_bind_ret. cbv beta.
  untouched_tac.
Qed.

(** ** Slicing a read *)

Section Slicing.
Local Open Scope Z_scope.

Lemma py_slice_all {A} (l : list A) : py_slice l None None = l.
Proof.
  unfold py_slice. rewrite Z.sub_0_r, Nat2Z.id.
  destruct (0 <? Z.of_nat (length l)) eqn:E.
  - change (Z.to_nat 0) with 0%nat. rewrite drop_0. apply firstn_all.
  - apply Z.ltb_ge in E. destruct l; simpl in *; [reflexivity|lia].
Qed.

Lemma py_slice_nil {A} start stop : py_slice (@nil A) start stop = [].
Proof.
  unfold py_slice. destruct (_ <? _); [|reflexivity].
  rewrite drop_nil. apply firstn_nil.
Qed.

Lemma read_slice_spec rt cid start stop st :
  fst (read_messages rt cid start stop st) =
    match fst (read_messages rt cid None None st) with
    | Ok ms => Ok (py_slice ms start stop)
    | Err e => Err e
    end /\
  snd (read_messages rt cid start stop st) = snd (read_messages rt cid None None st).
Proof.
  unfold read_messages, bind.
  destruct (_migrate_if_needed rt cid st) as [[[]|e] s1]; [|split; reflexivity].
  unfold exists_file. destruct (negb _).
  { simpl. rewrite py_slice_nil. destruct start, stop; split; reflexivity. }
  unfold read_file.
  destruct (parse_lines rt cid 1 _ s1) as [[ms|e] s2]; [|split; reflexivity].
  destruct start, stop; simpl; rewrite ?py_slice_all; split; reflexivity.
Qed.

Lemma py_slice_neg_start {A} (l : list A) (k : Z) :
  0 < k -> py_slice l (Some (- k)) None = drop (length l - Z.to_nat k) l.
Proof.
  intros Hk. unfold py_slice.
  replace (- k <? 0) with true by (symmetry; apply Z.ltb_lt; lia).
  destruct (decide (k <= Z.of_nat (length l))) as [Hle|Hgt].
  - rewrite Z.max_r by lia.
    replace (- k + Z.of_nat (length l) <? Z.of_nat (length l)) with true
      by (symmetry; apply Z.ltb_lt; lia).
    replace (Z.to_nat (- k + Z.of_nat (length l))) with (length l - Z.to_nat k)%nat by lia.
    apply firstn_all2. rewrite length_drop. lia.
  - rewrite Z.max_l by lia.
    replace (length l - Z.to_nat k)%nat with 0%nat by lia.
    rewrite Z.sub_0_r, Nat2Z.id, drop_0.
    destruct (0 <? Z.of_nat (length l)) eqn:E.
    + change (Z.to_nat 0) with 0%nat. rewrite drop_0. apply firstn_all.
    + apply Z.ltb_ge in E. destruct l; simpl in *; [reflexivity|lia].
Qed.

End Slicing.

(** ** The legacy file *)

Lemma str_app_assoc (a b c : string) : (a ++ b) ++ c = a ++ (b ++ c).
Proof.
  induction a as [|x a IH]; [reflexivity|].
  change (String x ((a ++ b) ++ c) = String x (a ++ (b ++ c))). rewrite IH. reflexivity.
Qed.

Lemma str_app_nil_r (a : string) : a ++ "" = a.
Proof.
  induction a as [|x a IH]; [reflexivity|].
  change (String x (a ++ "") = String x a). rewrite IH. reflexivity.
Qed.

Lemma concat_empty_cons (x : string) (l : list string) :
  String.concat "" (x :: l) = x ++ String.concat "" l.
Proof. destruct l; simpl; [rewrite str_app_nil_r|]; reflexivity. Qed.

Lemma jsonl_snoc rt ms m :
  jsonl_text rt (ms ++ [m])%list = jsonl_text rt ms ++ (dumps rt m ++ String NL EmptyString).
Proof.
  unfold jsonl_text. induction ms as [|m0 ms IH]; [reflexivity|].
  cbn [map List.app]. rewrite !concat_empty_cons, IH, !str_app_assoc. reflexivity.
Qed.

Lemma line_terminated_snoc t d :
  line_terminated (t ++ (d ++ String NL EmptyString)) = true.
Proof.
  unfold line_terminated. rewrite !list_ascii_app. simpl.
  rewrite !rev_app_distr. reflexivity.
Qed.

Lemma jsonl_lines rt ms :
  Forall (line_codec_ok rt) ms ->
  lines_of (jsonl_text rt ms) = map (dumps rt) ms /\
  line_terminated (jsonl_text rt ms) = true.
Proof.
  induction ms as [|m ms IH] using rev_ind; intros Hall; [split; reflexivity|].
  apply Forall_app in Hall as [Hms Hm]. inversion Hm as [|? ? Hc _]; subst.
  destruct (IH Hms) as [Hl Ht]. rewrite jsonl_snoc.
  split; [|apply line_terminated_snoc].
  destruct Hc as (_ & Hn & _).
  rewrite lines_of_append by assumption. rewrite Hl, map_app. reflexivity.
Qed.

Lemma parse_dumped rt cid ms : Forall (line_codec_ok rt) ms ->
  forall n st, parse_lines rt cid n (map (dumps rt) ms) st = (Ok ms, st).
Proof.
  induction ms as [|m ms IH]; intros Hall n st; [reflexivity|].
  inversion Hall as [|? ? Hc Hms]; subst.
  destruct (codec_strip rt m Hc) as (H1 & H2 & H3).
  cbn [map parse_lines]. rewrite H1, H2, H3.
  unfold bind. rewrite (IH Hms). reflexivity.
Qed.


Lemma migrate_legacy rt cid st txt v ms :
  files st !! _get_conversation_path cid = None ->
  files st !! legacy_path cid = Some txt ->
  loads rt txt = Ok v -> iter_json v = Ok ms ->
  _migrate_if_needed rt cid st =
    (Ok tt, set_files (<[backup_path cid := txt]> (delete (legacy_path cid)
              (<[_get_conversation_path cid := jsonl_text rt ms]> (files st)))) st).
Proof.
  intros H1 H2 Hv Hms.
  unfold _migrate_if_needed, bind, exists_file, read_file, write_file, rename, ret.
  cbn -[lookup insert delete legacy_path _get_conversation_path backup_path jsonl_text].
  rewrite H1. cbn -[lookup insert delete legacy_path _get_conversation_path backup_path jsonl_text].
  rewrite H2. cbn -[lookup insert delete legacy_path _get_conversation_path backup_path jsonl_text].
  rewrite H2. change (default "" (Some txt)) with txt. rewrite Hv, Hms. unfold set_files. cbn -[lookup insert delete legacy_path _get_conversation_path backup_path jsonl_text].
  rewrite insert_insert_eq, lookup_insert_ne by apply conv_ne_legacy.
  rewrite H2. reflexivity.
Qed.

Lemma migrate_undecodable rt cid st txt q :
  files st !! _get_conversation_path cid = None ->
  files st !! legacy_path cid = Some txt ->
  loads rt txt = Err (JSONDecodeError q) ->
  _migrate_if_needed rt cid st =
    (Ok tt, {| files := files st; ticks := ticks st; draws := draws st;
               printed := printed st ++ ["Warning: Failed to read legacy file "
                 ++ legacy_path cid ++ ": " ++ exn_str (JSONDecodeError q)] |}).
Proof.
  intros H1 H2 Hv.
  unfold _migrate_if_needed, bind, exists_file, read_file, print, ret.
  cbn -[lookup legacy_path _get_conversation_path exn_str].
  rewrite H1. cbn -[lookup legacy_path _get_conversation_path exn_str].
  rewrite H2. cbn -[lookup legacy_path _get_conversation_path exn_str].
  rewrite H2. change (default "" (Some txt)) with txt. rewrite Hv. reflexivity.
Qed.

Lemma migrate_not_iterable rt cid st txt v e :
  files st !! _get_conversation_path cid = None ->
  files st !! legacy_path cid = Some txt ->
  loads rt txt = Ok v -> iter_json v = Err e ->
  _migrate_if_needed rt cid st =
    (Err e, set_files (<[_get_conversation_path cid := ""]> (files st)) st).
Proof.
  intros H1 H2 Hv He.
  unfold _migrate_if_needed, bind, exists_file, read_file, write_file, raise, ret.
  cbn -[lookup insert legacy_path _get_conversation_path].
  rewrite H1. cbn -[lookup insert legacy_path _get_conversation_path].
  rewrite H2. cbn -[lookup insert legacy_path _get_conversation_path].
  rewrite H2. change (default "" (Some txt)) with txt. rewrite Hv, He. reflexivity.
Qed.

Lemma read_after_migration rt cid st :
  _migrate_if_needed rt cid st = (Ok tt, st) ->
  files (snd (read_messages rt cid None None st)) = files st /\
  ticks (snd (read_messages rt cid None None st)) = ticks st.
Proof.
  intros Hm. unfold read_messages. rewrite (bind_ok _ _ _ _ _ Hm).
  destruct (files st !! _get_conversation_path cid) as [t|] eqn:Ht.
  - rewrite (bind_ok _ _ st true st) by (unfold exists_file; rewrite Ht; reflexivity).
    cbn [negb].
    rewrite (bind_ok _ _ st t st) by (unfold read_file; rewrite Ht; reflexivity).
    unfold bind. pose proof (quiet_parse rt cid (lines_of t) 1 st) as Q.
    destruct (parse_lines rt cid 1 (lines_of t) st) as [[ms|e] s']; exact Q.
  - rewrite (bind_ok _ _ st false st) by (unfold exists_file; rewrite Ht; reflexivity).
    split; reflexivity.
Qed.

Lemma backup_ne_meta cid : backup_path cid <> _get_metadata_path cid.
Proof.
  unfold backup_path, _get_metadata_path.
  pose proof (sanitize_safe cid) as Hs.
  destruct (_sanitize_id cid) as [|c s]; simpl; [discriminate|].
  intros H. injection H as Hc _. subst c. simpl in Hs. discriminate.
Qed.

Lemma conv_path_sanitize cid :
  _get_conversation_path (_sanitize_id cid) = _get_conversation_path cid.
Proof. unfold _get_conversation_path. rewrite sanitize_idempotent. reflexivity. Qed.

Lemma legacy_path_sanitize cid : legacy_path (_sanitize_id cid) = legacy_path cid.
Proof. unfold legacy_path. rewrite sanitize_idempotent. reflexivity. Qed.

Lemma meta_path_sanitize cid :
  _get_metadata_path (_sanitize_id cid) = _get_metadata_path cid.
Proof. unfold _get_metadata_path. rewrite sanitize_idempotent. reflexivity. Qed.

Lemma safe_no_dot s : all_chars PyStr.safe_char s = true -> PyStr.contains "." s = false.
Proof.
  induction s as [|c s IH]; [reflexivity|].
  intros H. simpl in H. apply andb_prop in H as [H1 H2].
  unfold PyStr.contains; fold PyStr.contains. rewrite (IH H2).
  unfold PyStr.safe_char, PyStr.isalnum, PyStr.code in H1.
  destruct c as [[] [] [] [] [] [] [] []]; simpl in *; try discriminate; reflexivity.
Qed.

Lemma sanitize_empty : _sanitize_id "" = "".
Proof. reflexivity. Qed.


(** ** Properties *)

(** [_sanitize_id] always returns a name made only of alphanumeric
    characters, [-] and [_]: it contains no [/], no [\] and no [.], so
    the file names built from it ([<id>.jsonl], [.metadata/<id>.json])
    stay in the conversation directory; sanitizing it again changes
    nothing. *)
Theorem sanitized_id_confined (cid : string) :
  let s := _sanitize_id cid in
  all_chars PyStr.safe_char s = true /\ PyStr.contains "/" s = false /\
  PyStr.contains "\" s = false /\ PyStr.contains "." s = false /\
  _sanitize_id s = s.
Proof.
  intros s. subst s. pose proof (sanitize_safe cid) as Hs.
  pose proof (safe_no_sep _ Hs) as Hn.
  apply orb_false_iff in Hn as [Hn Hdd]. apply orb_false_iff in Hn as [Hsl Hbs].
  split; [exact Hs|]. split; [exact Hsl|]. split; [exact Hbs|].
  split; [exact (safe_no_dot _ Hs)|]. apply sanitize_idempotent.
Qed.

(** Reading, appending to, and getting the metadata of conversation
    [cid], and creating it under the non-empty name [cid], write no file
    other than the conversation's log, metadata, legacy and backup
    files: any other file name holds afterwards what it held before,
    whatever the outcome. *)
Theorem operations_touch_only_own_files (rt : runtime) (cid p : string)
  (Hp : ~ In p (conversation_files cid)) :
  (forall start stop, untouched p (read_messages rt cid start stop)) /\
  (forall sp ct md, untouched p (append_message rt cid sp ct md)) /\
  untouched p (get_metadata rt cid) /\
  (cid <> "" -> forall im md host,
     untouched p (create_conversation rt (Some cid) im md host)).
Proof.
  destruct (not_in_files p cid Hp) as (H1 & H2 & H3 & H4).
  split; [intros; apply untouched_read_messages; assumption|].
  split; [intros; apply untouched_append_message; assumption|].
  split; [apply untouched_get_metadata; assumption|].
  intros Hne im md host. apply untouched_create; assumption.
Qed.

(** When no migration is due (the log exists, or there is no legacy
    file), [read_messages] writes nothing and reads no clock: the files
    and the clock are as before, with or without a slice. *)
Theorem read_without_migration_writes_nothing (rt : runtime) (cid : string)
  (start stop : option Z) (st : state)
  (H : files st !! _get_conversation_path cid <> None \/
       files st !! legacy_path cid = None) :
  files (snd (read_messages rt cid start stop st)) = files st /\
  ticks (snd (read_messages rt cid start stop st)) = ticks st.
Proof.
  destruct (read_slice_spec rt cid start stop st) as [_ ->].
  apply read_after_migration.
  destruct (files st !! _get_conversation_path cid) as [t|] eqn:Ht.
  - exact (migrate_present rt cid st t Ht).
  - destruct H as [H|H]; [contradiction|]. exact (migrate_absent rt cid st Ht H).
Qed.

(** [read_messages(cid, start=-k)] for [k >= 1] returns the last [k]
    messages, or all of them when there are fewer than [k]. *)
Theorem read_negative_start_last_k (rt : runtime) (cid : string) (k : Z)
  (st : state) (Hk : (0 < k)%Z) :
  fst (read_messages rt cid (Some (- k)%Z) None st) =
    match fst (read_messages rt cid None None st) with
    | Ok ms => Ok (drop (length ms - Z.to_nat k) ms)
    | Err e => Err e
    end.
Proof.
  destruct (read_slice_spec rt cid (Some (- k)%Z) None st) as [-> _].
  destruct (fst (read_messages rt cid None None st)) as [ms|e]; [|reflexivity].
  rewrite py_slice_neg_start by exact Hk. reflexivity.
Qed.

(** Reading a conversation that only has its legacy [.json] file
    migrates it: when the file parses and iterating the parsed value
    gives messages that each read back from their one-line [json.dumps],
    the read returns those messages, the log holds one line per message,
    the legacy file is renamed to the backup file, and the clock is not
    read. *)
Theorem read_migrates_legacy_file (rt : runtime) (cid : string) (st : state)
  (txt : string) (v : jval) (ms : list jval)
  (Hlog : files st !! _get_conversation_path cid = None)
  (Hleg : files st !! legacy_path cid = Some txt)
  (Hv : loads rt txt = Ok v) (Hms : iter_json v = Ok ms)
  (Hc : Forall (line_codec_ok rt) ms) :
  exists st', read_messages rt cid None None st = (Ok ms, st') /\
    files st' = <[backup_path cid := txt]> (delete (legacy_path cid)
                  (<[_get_conversation_path cid := jsonl_text rt ms]> (files st))) /\
    ticks st' = ticks st.
Proof.
  pose (f' := <[backup_path cid := txt]> (delete (legacy_path cid)
                (<[_get_conversation_path cid := jsonl_text rt ms]> (files st)))).
  assert (Hconv : f' !! _get_conversation_path cid = Some (jsonl_text rt ms)).
  { subst f'. rewrite lookup_insert_ne by (apply not_eq_sym, conv_ne_backup).
    rewrite lookup_delete_ne by (apply not_eq_sym, conv_ne_legacy).
    apply lookup_insert_eq. }
  exists (set_files f' st). unfold read_messages.
  rewrite (bind_ok _ _ _ _ _ (migrate_legacy rt cid st txt v ms Hlog Hleg Hv Hms)).
  fold f'.
  rewrite (bind_ok _ _ _ true (set_files f' st))
    by (unfold exists_file; simpl; rewrite Hconv; reflexivity).
  cbn [negb].
  rewrite (bind_ok _ _ _ (jsonl_text rt ms) (set_files f' st))
    by (unfold read_file; simpl; rewrite Hconv; reflexivity).
  destruct (jsonl_lines rt ms Hc) as [Hl _]. rewrite Hl.
  rewrite (bind_ok _ _ _ _ _ (parse_dumped rt cid ms Hc 1 (set_files f' st))).
  split; [reflexivity|]. split; reflexivity.
Qed.

(** When the legacy file of a conversation without a log is not valid
    JSON, a read prints a warning naming the file, returns no messages,
    and leaves every file as it was; so every later read warns again. *)
Theorem read_undecodable_legacy_warns (rt : runtime) (cid : string) (st : state)
  (txt : string) (q : nat)
  (Hlog : files st !! _get_conversation_path cid = None)
  (Hleg : files st !! legacy_path cid = Some txt)
  (Hv : loads rt txt = Err (JSONDecodeError q)) :
  read_messages rt cid None None st =
    (Ok [], {| files := files st; ticks := ticks st; draws := draws st;
               printed := printed st ++ ["Warning: Failed to read legacy file "
                 ++ legacy_path cid ++ ": " ++ exn_str (JSONDecodeError q)] |}).
Proof.
  unfold read_messages.
  rewrite (bind_ok _ _ _ _ _ (migrate_undecodable rt cid st txt q Hlog Hleg Hv)).
  unfold bind, exists_file. simpl. rewrite Hlog. reflexivity.
Qed.

(** When the legacy file parses to a value that cannot be iterated (a
    number, a boolean or [null]), a read raises the [TypeError] after
    creating an empty log; from then on the conversation reads as empty
    and the legacy file, still in place, is never migrated. *)
Theorem read_non_iterable_legacy (rt : runtime) (cid : string) (st : state)
  (txt : string) (v : jval) (e : py_exn)
  (Hlog : files st !! _get_conversation_path cid = None)
  (Hleg : files st !! legacy_path cid = Some txt)
  (Hv : loads rt txt = Ok v) (He : iter_json v = Err e) :
  let st1 := set_files (<[_get_conversation_path cid := ""]> (files st)) st in
  read_messages rt cid None None st = (Err e, st1) /\
  read_messages rt cid None None st1 = (Ok [], st1) /\
  files st1 !! legacy_path cid = Some txt.
Proof.
  intros st1.
  assert (Hc1 : files st1 !! _get_conversation_path cid = Some "")
    by (simpl; apply lookup_insert_eq).
  split.
  - unfold read_messages.
    rewrite (bind_err _ _ _ _ _ (migrate_not_iterable rt cid st txt v e Hlog Hleg Hv He)).
    reflexivity.
  - split.
    + rewrite (read_present rt cid st1 "" Hc1). reflexivity.
    + simpl. rewrite lookup_insert_ne by apply conv_ne_legacy. exact Hleg.
Qed.

(** [get_metadata] of a conversation without a metadata file whose read
    returns no messages builds a fresh record (message count 0, no
    participants, both timestamps read from the clock now) and does not
    save it: no metadata file is written, so each call gives new
    timestamps. *)
Theorem metadata_of_empty_not_saved (rt : runtime) (cid : string) (st st_r : state)
  (Hmeta : files st !! _get_metadata_path cid = None)
  (Hread : read_messages rt cid None None st = (Ok [], st_r)) :
  get_metadata rt cid st =
    (Ok (JObj [("id", JStr cid); ("created_at", JStr (isoformat rt (ticks st_r)));
               ("updated_at", JStr (isoformat rt (S (ticks st_r))));
               ("participants", JArr []); ("message_count", JInt 0);
               ("topic", JStr ""); ("status", JStr "active")]),
     {| files := files st_r; ticks := S (S (ticks st_r)); draws := draws st_r;
        printed := printed st_r |}) /\
  files st_r !! _get_metadata_path cid = None.
Proof.
  split.
  - unfold get_metadata.
    rewrite (bind_ok _ _ st false st) by (unfold exists_file; rewrite Hmeta; reflexivity).
    cbn [negb]. unfold _generate_metadata.
    rewrite (bind_ok _ _ _ _ _ Hread). reflexivity.
  - pose proof (untouched_read_messages rt cid None None (_get_metadata_path cid)
                  (meta_ne_conv cid) (not_eq_sym (legacy_ne_meta cid))
                  (not_eq_sym (backup_ne_meta cid)) st) as U.
    rewrite Hread in U. simpl in U. rewrite U. exact Hmeta.
Qed.

(** [create_conversation] with an identifier whose sanitized form is not
    empty and already has a log or a legacy file raises [ValueError]
    ["Conversation <id> already exists"] and changes nothing. *)
Theorem create_existing_raises (rt : runtime) (cid im host : string)
  (md : option (list (string * jval))) (st : state)
  (Hs : _sanitize_id cid <> "")
  (Hex : files st !! _get_conversation_path cid <> None \/
         files st !! legacy_path cid <> None) :
  create_conversation rt (Some cid) im md host st =
    (Err (ValueError ("Conversation " ++ _sanitize_id cid ++ " already exists")), st).
Proof.
  assert (Hne : cid <> "") by (intros ->; apply Hs; reflexivity).
  unfold create_conversation. rewrite (proj2 (String.eqb_neq cid "") Hne).
  rewrite (bind_ok _ _ st cid st) by reflexivity. cbv beta.
  rewrite (proj2 (String.eqb_neq _ "") Hs).
  assert (Hce : conversation_exists (_sanitize_id cid) st = (Ok true, st)).
  { unfold conversation_exists, bind, exists_file.
    rewrite conv_path_sanitize, legacy_path_sanitize.
    destruct (files st !! _get_conversation_path cid) as [t|]; [reflexivity|].
    destruct Hex as [Hex|Hex]; [contradiction|].
    simpl. destruct (files st !! legacy_path cid); [reflexivity|contradiction]. }
  rewrite (bind_ok _ _ _ _ _ Hce). reflexivity.
Qed.

(** [create_conversation] with no initial message, under a new
    identifier whose sanitized form [s] is not empty, writes an empty
    log and a metadata file (message count 0, no participants, the
    [topic] and [tags] of the given metadata dict or their defaults),
    reads the clock twice, and returns [s]. *)
Theorem create_without_message (rt : runtime) (cid host : string)
  (md : option (list (string * jval))) (st : state)
  (Hs : _sanitize_id cid <> "")
  (Hlog : files st !! _get_conversation_path cid = None)
  (Hleg : files st !! legacy_path cid = None) :
  let s := _sanitize_id cid in
  let topic := if dict_truthy md then default (JStr "") (assoc "topic" (default [] md))
               else JStr "" in
  let tags := if dict_truthy md then default (JArr []) (assoc "tags" (default [] md))
              else JArr [] in
  create_conversation rt (Some cid) "" md host st =
    (Ok s,
     {| files := <[_get_metadata_path cid :=
                    dumps_indent rt (JObj [("id", JStr s);
                      ("created_at", JStr (isoformat rt (ticks st)));
                      ("updated_at", JStr (isoformat rt (S (ticks st))));
                      ("participants", JArr []); ("message_count", JInt 0);
                      ("topic", topic); ("tags", tags); ("status", JStr "active")])]>
                  (<[_get_conversation_path cid := ""]> (files st));
        ticks := S (S (ticks st)); draws := draws st; printed := printed st |}).
Proof.
  intros s topic tags.
  assert (Hne : cid <> "") by (intros ->; apply Hs; reflexivity).
  unfold create_conversation. rewrite (proj2 (String.eqb_neq cid "") Hne).
  rewrite (bind_ok _ _ st cid st) by reflexivity. cbv beta.
  rewrite (proj2 (String.eqb_neq _ "") Hs).
  rewrite (bind_ok _ _ _ _ _ (exists_absent (_sanitize_id cid) st
             ltac:(rewrite conv_path_sanitize; exact Hlog)
             ltac:(rewrite legacy_path_sanitize; exact Hleg))).
  cbv beta. rewrite conv_path_sanitize.
  subst s topic tags. unfold _save_metadata. rewrite meta_path_sanitize.
  destruct (dict_truthy md); unfold bind, touch, ret, now_iso, lift, dict_get,
    write_file, set_files; cbn -[lookup insert _get_metadata_path _get_conversation_path];
    rewrite Hlog; reflexivity.
Qed.


Lemma operations_touch_only_own_files_witness :
  ~ In "d.jsonl" (conversation_files "c") /\
  (forall start stop, untouched "d.jsonl" (read_messages (mk_runtime 0) "c" start stop)) /\
  (forall sp ct md, untouched "d.jsonl" (append_message (mk_runtime 0) "c" sp ct md)) /\
  untouched "d.jsonl" (get_metadata (mk_runtime 0) "c") /\
  ("c" <> "" -> forall im md host,
     untouched "d.jsonl" (create_conversation (mk_runtime 0) (Some "c") im md host)).
Proof.
  assert (H : ~ In "d.jsonl" (conversation_files "c")).
  { vm_compute. intuition discriminate. }
  split; [exact H|]. exact (operations_touch_only_own_files (mk_runtime 0) "c" "d.jsonl" H).
Defined.

Lemma read_without_migration_writes_nothing_witness :
  let st := {| files := <["c.jsonl" := "5"]> ∅; ticks := 0; draws := 0; printed := [] |} in
  (files st !! _get_conversation_path "c" <> None \/ files st !! legacy_path "c" = None) /\
  files (snd (read_messages (mk_runtime 0) "c" (Some 1%Z) None st)) = files st /\
  ticks (snd (read_messages (mk_runtime 0) "c" (Some 1%Z) None st)) = ticks st.
Proof.
  intros st.
  assert (H : files st !! _get_conversation_path "c" <> None \/
              files st !! legacy_path "c" = None) by (left; vm_compute; discriminate).
  split; [exact H|].
  exact (read_without_migration_writes_nothing (mk_runtime 0) "c" (Some 1%Z) None st H).
Defined.

Lemma read_negative_start_last_k_witness :
  let st := {| files := <["c.jsonl" := "1
2
3
"]> ∅; ticks := 0; draws := 0; printed := [] |} in
  (0 < 2)%Z /\
  fst (read_messages (mk_runtime 0) "c" (Some (- 2)%Z) None st) =
    match fst (read_messages (mk_runtime 0) "c" None None st) with
    | Ok ms => Ok (drop (length ms - Z.to_nat 2) ms)
    | Err e => Err e
    end.
Proof.
  intros st. split; [lia|].
  apply (read_negative_start_last_k (mk_runtime 0) "c" 2 st). lia.
Defined.

Lemma read_migrates_legacy_file_witness :
  let st := {| files := <["c.json" := "[1,2]"]> ∅; ticks := 0; draws := 0; printed := [] |} in
  files st !! _get_conversation_path "c" = None /\
  files st !! legacy_path "c" = Some "[1,2]" /\
  loads (mk_runtime 0) "[1,2]" = Ok (JArr [JInt 1; JInt 2]) /\
  iter_json (JArr [JInt 1; JInt 2]) = Ok [JInt 1; JInt 2] /\
  Forall (line_codec_ok (mk_runtime 0)) [JInt 1; JInt 2] /\
  exists st', read_messages (mk_runtime 0) "c" None None st = (Ok [JInt 1; JInt 2], st') /\
    files st' = <[backup_path "c" := "[1,2]"]> (delete (legacy_path "c")
                  (<[_get_conversation_path "c" := jsonl_text (mk_runtime 0) [JInt 1; JInt 2]]>
                     (files st))) /\
    ticks st' = ticks st.
Proof.
  intros st.
  assert (H1 : files st !! _get_conversation_path "c" = None) by (vm_compute; reflexivity).
  assert (H2 : files st !! legacy_path "c" = Some "[1,2]") by (vm_compute; reflexivity).
  assert (H3 : loads (mk_runtime 0) "[1,2]" = Ok (JArr [JInt 1; JInt 2]))
    by (vm_compute; reflexivity).
  assert (H4 : iter_json (JArr [JInt 1; JInt 2]) = Ok [JInt 1; JInt 2]) by reflexivity.
  assert (H5 : Forall (line_codec_ok (mk_runtime 0)) [JInt 1; JInt 2])
    by (constructor; [codec_ok|constructor; [codec_ok|constructor]]).
  split; [exact H1|]. split; [exact H2|]. split; [exact H3|]. split; [exact H4|].
  split; [exact H5|].
  exact (read_migrates_legacy_file (mk_runtime 0) "c" st "[1,2]" _ _ H1 H2 H3 H4 H5).
Defined.

Lemma read_undecodable_legacy_warns_witness :
  let st := {| files := <["c.json" := "[1,"]> ∅; ticks := 0; draws := 0; printed := [] |} in
  files st !! _get_conversation_path "c" = None /\
  files st !! legacy_path "c" = Some "[1," /\
  loads (mk_runtime 0) "[1," = Err (JSONDecodeError 3) /\
  read_messages (mk_runtime 0) "c" None None st =
    (Ok [], {| files := files st; ticks := ticks st; draws := draws st;
               printed := printed st ++ ["Warning: Failed to read legacy file "
                 ++ legacy_path "c" ++ ": " ++ exn_str (JSONDecodeError 3)] |}).
Proof.
  intros st.
  assert (H1 : files st !! _get_conversation_path "c" = None) by (vm_compute; reflexivity).
  assert (H2 : files st !! legacy_path "c" = Some "[1,") by (vm_compute; reflexivity).
  assert (H3 : loads (mk_runtime 0) "[1," = Err (JSONDecodeError 3))
    by (vm_compute; reflexivity).
  split; [exact H1|]. split; [exact H2|]. split; [exact H3|].
  exact (read_undecodable_legacy_warns (mk_runtime 0) "c" st "[1," 3 H1 H2 H3).
Defined.

Lemma read_non_iterable_legacy_witness :
  let st := {| files := <["c.json" := "5"]> ∅; ticks := 0; draws := 0; printed := [] |} in
  files st !! _get_conversation_path "c" = None /\
  files st !! legacy_path "c" = Some "5" /\
  loads (mk_runtime 0) "5" = Ok (JInt 5) /\
  iter_json (JInt 5) = Err (TypeError "'int' object is not iterable") /\
  let st1 := set_files (<[_get_conversation_path "c" := ""]> (files st)) st in
  read_messages (mk_runtime 0) "c" None None st
    = (Err (TypeError "'int' object is not iterable"), st1) /\
  read_messages (mk_runtime 0) "c" None None st1 = (Ok [], st1) /\
  files st1 !! legacy_path "c" = Some "5".
Proof.
  intros st.
  assert (H1 : files st !! _get_conversation_path "c" = None) by (vm_compute; reflexivity).
  assert (H2 : files st !! legacy_path "c" = Some "5") by (vm_compute; reflexivity).
  assert (H3 : loads (mk_runtime 0) "5" = Ok (JInt 5)) by (vm_compute; reflexivity).
  assert (H4 : iter_json (JInt 5) = Err (TypeError "'int' object is not iterable"))
    by reflexivity.
  split; [exact H1|]. split; [exact H2|]. split; [exact H3|]. split; [exact H4|].
  exact (read_non_iterable_legacy (mk_runtime 0) "c" st "5" _ _ H1 H2 H3 H4).
Defined.

Lemma metadata_of_empty_not_saved_witness :
  files empty_state !! _get_metadata_path "c" = None /\
  read_messages (mk_runtime 0) "c" None None empty_state = (Ok [], empty_state) /\
  get_metadata (mk_runtime 0) "c" empty_state =
    (Ok (JObj [("id", JStr "c"); ("created_at", JStr (isoformat (mk_runtime 0) (ticks empty_state)));
               ("updated_at", JStr (isoformat (mk_runtime 0) (S (ticks empty_state))));
               ("participants", JArr []); ("message_count", JInt 0);
               ("topic", JStr ""); ("status", JStr "active")]),
     {| files := files empty_state; ticks := S (S (ticks empty_state));
        draws := draws empty_state; printed := printed empty_state |}) /\
  files empty_state !! _get_metadata_path "c" = None.
Proof.
  assert (H1 : files empty_state !! _get_metadata_path "c" = None) by (vm_compute; reflexivity).
  assert (H2 : read_messages (mk_runtime 0) "c" None None empty_state = (Ok [], empty_state))
    by (vm_compute; reflexivity).
  split; [exact H1|]. split; [exact H2|].
  exact (metadata_of_empty_not_saved (mk_runtime 0) "c" empty_state empty_state H1 H2).
Defined.

Lemma create_existing_raises_witness :
  let st := {| files := <["c.jsonl" := ""]> ∅; ticks := 0; draws := 0; printed := [] |} in
  _sanitize_id "c!" <> "" /\
  (files st !! _get_conversation_path "c!" <> None \/
   files st !! legacy_path "c!" <> None) /\
  create_conversation (mk_runtime 0) (Some "c!") "hi" None "" st =
    (Err (ValueError ("Conversation " ++ _sanitize_id "c!" ++ " already exists")), st).
Proof.
  intros st.
  assert (H1 : _sanitize_id "c!" <> "") by (vm_compute; discriminate).
  assert (H2 : files st !! _get_conversation_path "c!" <> None \/
               files st !! legacy_path "c!" <> None) by (left; vm_compute; discriminate).
  split; [exact H1|]. split; [exact H2|].
  exact (create_existing_raises (mk_runtime 0) "c!" "hi" "" None st H1 H2).
Defined.

Lemma create_without_message_witness :
  _sanitize_id "c" <> "" /\
  files empty_state !! _get_conversation_path "c" = None /\
  files empty_state !! legacy_path "c" = None /\
  create_conversation (mk_runtime 0) (Some "c") "" (Some [("topic", JStr "t")]) "" empty_state =
    (Ok "c",
     {| files := <[_get_metadata_path "c" :=
                    dumps_indent (mk_runtime 0) (JObj [("id", JStr "c");
                      ("created_at", JStr (isoformat (mk_runtime 0) 0));
                      ("updated_at", JStr (isoformat (mk_runtime 0) 1));
                      ("participants", JArr []); ("message_count", JInt 0);
                      ("topic", JStr "t"); ("tags", JArr []); ("status", JStr "active")])]>
                  (<[_get_conversation_path "c" := ""]> (files empty_state));
        ticks := 2; draws := 0; printed := [] |}).
Proof.
  assert (H1 : _sanitize_id "c" <> "") by (vm_compute; discriminate).
  assert (H2 : files empty_state !! _get_conversation_path "c" = None)
    by (vm_compute; reflexivity).
  assert (H3 : files empty_state !! legacy_path "c" = None) by (vm_compute; reflexivity).
  split; [exact H1|]. split; [exact H2|]. split; [exact H3|].
  exact (create_without_message (mk_runtime 0) "c" "" (Some [("topic", JStr "t")])
           empty_state H1 H2 H3).
Defined.
End ConversationExtras.

Module ConversationRoundTrip.
Import Conversation.
Import ConversationFacts.
Import ConversationExtras.
Local Open Scope string_scope.

(** ** Appending after a read, whatever the legacy file holds *)

Lemma jsonl_terminated rt ms : line_terminated (jsonl_text rt ms) = true.
Proof.
  induction ms as [|m ms _] using rev_ind; [reflexivity|].
  rewrite jsonl_snoc. apply line_terminated_snoc.
Qed.

(** With no log and an undecodable legacy file, a read prints the
    warning and returns nothing, leaving the files and the clock alone. *)
Lemma read_undecodable_log rt cid st txt q :
  files st !! _get_conversation_path cid = None ->
  files st !! legacy_path cid = Some txt ->
  loads rt txt = Err (JSONDecodeError q) ->
  exists st', read_messages rt cid None None st = (Ok [], st')
              /\ files st' = files st /\ ticks st' = ticks st.
Proof.
  intros H1 H2 Hv. unfold read_messages.
  rewrite (bind_ok _ _ _ _ _ (migrate_undecodable rt cid st txt q H1 H2 Hv)).
  unfold bind, exists_file. cbn [files snd fst]. rewrite H1.
  eexists. split; [reflexivity|]. split; reflexivity.
Qed.

(** In that case [append_message] writes the record, numbered 1, as the
    log's only line. *)
Lemma append_undecodable rt cid sp ct md st txt q :
  files st !! _get_conversation_path cid = None ->
  files st !! legacy_path cid = Some txt ->
  loads rt txt = Err (JSONDecodeError q) ->
  files (snd (append_message rt cid sp ct md st)) !! _get_conversation_path cid
    = Some (dumps rt (message_record 1 sp ct (isoformat rt (ticks st)) (default [] md))
            ++ String NL EmptyString).
Proof.
  intros H1 H2 Hv. unfold append_message.
  rewrite (bind_ok _ _ _ _ _ (migrate_undecodable rt cid st txt q H1 H2 Hv)).
  destruct (read_undecodable_log rt cid
              {| files := files st; ticks := ticks st; draws := draws st;
                 printed := printed st ++ ["Warning: Failed to read legacy file "
                   ++ legacy_path cid ++ ": " ++ exn_str (JSONDecodeError q)] |}
              txt q H1 H2 Hv) as (st2 & Hr & Hf2 & Ht2).
  assert (Hc : _count_messages rt cid
                 {| files := files st; ticks := ticks st; draws := draws st;
                    printed := printed st ++ ["Warning: Failed to read legacy file "
                      ++ legacy_path cid ++ ": " ++ exn_str (JSONDecodeError q)] |}
               = (Ok 0%Z, st2)).
  { unfold _count_messages. rewrite (bind_ok _ _ _ _ _ Hr). reflexivity. }
  rewrite (bind_ok _ _ _ _ _ Hc).
  erewrite bind_ok by reflexivity.
  erewrite bind_ok by reflexivity.
  apply keeps_update.
  cbn -[lookup insert dumps message_record].
  rewrite Hf2, Ht2. cbn [files ticks]. rewrite H1. apply lookup_insert_eq.
Qed.

(** Any other exception of [json.loads] on the legacy file escapes. *)
Lemma migrate_raises rt cid st txt e :
  files st !! _get_conversation_path cid = None ->
  files st !! legacy_path cid = Some txt ->
  loads rt txt = Err e -> (forall q, e <> JSONDecodeError q) ->
  _migrate_if_needed rt cid st = (Err e, st).
Proof.
  intros H1 H2 Hv Hne.
  unfold _migrate_if_needed, bind, exists_file, read_file, raise.
  cbn -[lookup legacy_path _get_conversation_path].
  rewrite H1. cbn -[lookup legacy_path _get_conversation_path].
  rewrite H2. cbn -[lookup legacy_path _get_conversation_path].
  rewrite H2. change (default "" (Some txt)) with txt. rewrite Hv.
  destruct e as [m|q|m|m|m|]; try reflexivity. exfalso. exact (Hne q eq_refl).
Qed.

(** C1 (amended): when the read before [append_message] succeeds, the log
    (if present) ends at a line boundary, and the new record survives
    [json.dumps] / [json.loads] on one line, a read after the append
    returns what the read before returned, followed by the record:
    turn = that count + 1, with the given speaker and content. A legacy
    [.json] file beside an absent log is allowed: it is migrated (or, if
    undecodable, ignored with a warning) by both calls. *)
Theorem append_then_read (rt : runtime) (cid sp ct : string)
    (md : option (list (string * jval))) (st st_r : state) (ms : list jval)
    (Hlog : forall t, files st !! _get_conversation_path cid = Some t ->
            line_terminated t = true)
    (Hread : read_messages rt cid None None st = (Ok ms, st_r))
    (Hcodec : line_codec_ok rt
                (message_record (Z.of_nat (length ms) + 1) sp ct
                   (isoformat rt (ticks st)) (default [] md))) :
  fst (read_messages rt cid None None (snd (append_message rt cid sp ct md st)))
  = Ok (ms ++ [message_record (Z.of_nat (length ms) + 1) sp ct
                 (isoformat rt (ticks st)) (default [] md)])%list.
Proof.
  destruct (files st !! _get_conversation_path cid) as [t|] eqn:H1.
  { apply (append_then_read_plain rt cid sp ct md st st_r ms); [|exact Hread|exact Hcodec].
    rewrite H1. exact (Hlog t eq_refl). }
  destruct (files st !! legacy_path cid) as [txt|] eqn:H2.
  2:{ apply (append_then_read_plain rt cid sp ct md st st_r ms); [|exact Hread|exact Hcodec].
      rewrite H1. exact H2. }
  destruct (loads rt txt) as [v|e] eqn:Hv.
  - destruct (iter_json v) as [ms0|e] eqn:Hms.
    + (* the legacy file is migrated first; both calls then see the log *)
      pose proof (migrate_legacy rt cid st txt v ms0 H1 H2 Hv Hms) as Hm.
      set (st0 := set_files _ st) in Hm.
      assert (H0 : files st0 !! _get_conversation_path cid = Some (jsonl_text rt ms0)).
      { subst st0. unfold set_files. cbn [files].
        rewrite lookup_insert_ne by (apply not_eq_sym, conv_ne_backup).
        rewrite lookup_delete_ne by (apply not_eq_sym, conv_ne_legacy).
        apply lookup_insert_eq. }
      assert (Hm0 := migrate_present rt cid st0 _ H0).
      assert (Er : read_messages rt cid None None st = read_messages rt cid None None st0).
      { unfold read_messages. rewrite (bind_ok _ _ _ _ _ Hm), (bind_ok _ _ _ _ _ Hm0).
        reflexivity. }
      assert (Ea : append_message rt cid sp ct md st = append_message rt cid sp ct md st0).
      { unfold append_message. rewrite (bind_ok _ _ _ _ _ Hm), (bind_ok _ _ _ _ _ Hm0).
        reflexivity. }
      rewrite Ea. rewrite Er in Hread.
      apply (append_then_read_plain rt cid sp ct md st0 st_r ms); [|exact Hread|exact Hcodec].
      rewrite H0. apply jsonl_terminated.
    + exfalso. unfold read_messages in Hread.
      rewrite (bind_err _ _ _ _ _ (migrate_not_iterable rt cid st txt v e H1 H2 Hv Hms))
        in Hread.
      discriminate.
  - assert (Hfail : forall e', loads rt txt = Err e' ->
                     (forall q, e' <> JSONDecodeError q) -> False).
    { intros e' He' Hne. unfold read_messages in Hread.
      rewrite (bind_err _ _ _ _ _ (migrate_raises rt cid st txt e' H1 H2 He' Hne)) in Hread.
      discriminate. }
    destruct e as [m|q|m|m|m|];
      try (exfalso; apply (Hfail _ Hv); intros ? ?; discriminate).
    destruct (read_undecodable_log rt cid st txt q H1 H2 Hv) as (st' & Hr & _).
    rewrite Hr in Hread. injection Hread as <- _.
    rewrite (read_present rt cid _ _ (append_undecodable rt cid sp ct md st txt q H1 H2 Hv)).
    rewrite lines_of_line by exact Hcodec.
    rewrite parse_single by exact Hcodec. reflexivity.
Qed.

Lemma append_then_read_witness :
  let rt := mk_runtime 0 in
  let st := {| files := <["c.json" := dumps rt (JArr [message_record 1 "bob" "yo" "t0" []])]> ∅;
               ticks := 0; draws := 0; printed := [] |} in
  fst (read_messages rt "c" None None st) = Ok [message_record 1 "bob" "yo" "t0" []] /\
  fst (read_messages rt "c" None None (snd (append_message rt "c" "alice" "hi" None st)))
  = Ok [message_record 1 "bob" "yo" "t0" [];
        message_record 2 "alice" "hi" (isoformat rt 0) []].
Proof.
  intros rt st.
  destruct (read_messages rt "c" None None st) as [r st_r] eqn:Hr.
  assert (Hr1 : r = Ok [message_record 1 "bob" "yo" "t0" []]).
  { change r with (fst (r, st_r)). rewrite <- Hr. vm_compute. reflexivity. }
  subst r. split; [reflexivity|].
  exact (append_then_read rt "c" "alice" "hi" None st st_r _
           ltac:(intros t Ht; vm_compute in Ht; discriminate) Hr ltac:(codec_ok)).
Defined.
End ConversationRoundTrip.
